(** * Verification of the lambda-java-template Python handlers

    Three handlers are embedded here, each in its own module:
    - [Authorizer]       : src/lambda-functions/authorizer.py
    - [EventProcessor]   : src/lambda-functions/event_processor.py
    - [EphemeralCleanup] : src/terraform/scripts/ephemeral-cleanup.py

    Python values that come from a JSON event are modelled by [pyval];
    exceptions by [exn]; calls to the cloud provider by an interface whose
    operations take and return the provider's state, because a call may
    both fail and change that state.

    A Python [str] is modelled by the [string] of its code points, one
    character per code point. This covers the strings whose code points
    are all below 256; on them [len], [startswith], [in], [repr] and
    [int] are the ones of CPython 3.11.

    A finite Python [float] is modelled by the rational number it stands
    for, and every operation on floats rounds as IEEE 754 binary64 does. *)

From Stdlib Require Import ZArith QArith Lia Ascii String.
From stdpp Require Import base option list strings gmap pretty.

Local Open Scope string_scope.
Local Open Scope list_scope.
Local Open Scope Z_scope.
Local Set Warnings "-register-all".

(** ** Python runtime: values, exceptions, the few builtins the handlers use *)
Module Py.

(** Values a JSON document decodes to. Of a float in an event only the
    truth value is ever inspected. *)
Inductive pyval : Type :=
| PNone
| PBool (b : bool)
| PInt (z : Z)
| PFloat (q : Q)
| PStr (s : string)
| PList (l : list pyval)
| PDict (d : gmap string pyval).

(** Exceptions, all of them subclasses of [Exception]; [str_exn] is [str(e)]. *)
Inductive exn : Type :=
| AttributeError (msg : string)
| TypeError (msg : string)
| ValueError (msg : string)
| OverflowError (msg : string)
| ZeroDivisionError (msg : string)
| ClientError (msg : string).

Definition str_exn (e : exn) : string :=
  match e with
  | AttributeError m | TypeError m | ValueError m | OverflowError m
  | ZeroDivisionError m | ClientError m => m
  end.

Inductive result (A : Type) : Type :=
| Ok (a : A)
| Raise (e : exn).
Arguments Ok {A} a.
Arguments Raise {A} e.

Definition rbind {A B} (r : result A) (k : A -> result B) : result B :=
  match r with
  | Ok a => k a
  | Raise e => Raise e
  end.

(** [type(v).__name__], used in the messages of the errors below. *)
Definition type_name (v : pyval) : string :=
  match v with
  | PNone => "NoneType"
  | PBool _ => "bool"
  | PInt _ => "int"
  | PFloat _ => "float"
  | PStr _ => "str"
  | PList _ => "list"
  | PDict _ => "dict"
  end.

(** [bool(v)] *)
Definition truthy (v : pyval) : bool :=
  match v with
  | PNone => false
  | PBool b => b
  | PInt z => negb (z =? 0)
  | PFloat q => negb (Qeq_bool q 0)
  | PStr s => negb (String.eqb s "")
  | PList l => match l with [] => false | _ => true end
  | PDict d => negb (bool_decide (d = ∅))
  end.

(** [len(v)]: defined on strings, lists and dicts, a [TypeError] elsewhere. *)
Definition len (v : pyval) : result Z :=
  match v with
  | PStr s => Ok (Z.of_nat (String.length s))
  | PList l => Ok (Z.of_nat (length l))
  | PDict d => Ok (Z.of_nat (size d))
  | _ => Raise (TypeError ("object of type '" +:+ type_name v +:+ "' has no len()"))
  end.

(** [v.get(key, dflt)]: only dicts have the method. *)
Definition get (v : pyval) (key : string) (dflt : pyval) : result pyval :=
  match v with
  | PDict d => Ok (default dflt (d !! key))
  | _ => Raise (AttributeError
                  ("'" +:+ type_name v +:+ "' object has no attribute 'get'"))
  end.

(** [a or b], with [b] evaluated only when [a] is falsy. *)
Definition por (a : pyval) (b : result pyval) : result pyval :=
  if truthy a then Ok a else b.

(** [name.startswith(prefix)] *)
Fixpoint startswith (name prefix : string) {struct prefix} : bool :=
  match prefix, name with
  | EmptyString, _ => true
  | String _ _, EmptyString => false
  | String c p, String d n => Ascii.eqb c d && startswith n p
  end.

(** [sub in name] on strings *)
Fixpoint contains (sub name : string) : bool :=
  startswith name sub ||
  match name with
  | EmptyString => false
  | String _ n => contains sub n
  end.

(** [s.lower()] on ASCII letters *)
Definition ascii_lower (c : Ascii.ascii) : Ascii.ascii :=
  let n := Ascii.nat_of_ascii c in
  if ((65 <=? n) && (n <=? 90))%nat then Ascii.ascii_of_nat (n + 32) else c.

Fixpoint lower (s : string) : string :=
  match s with
  | EmptyString => EmptyString
  | String c s' => String (ascii_lower c) (lower s')
  end.

(** *** [int] of a string

    The characters [int] skips around a number: tab to carriage return
    and the space, and, outside ASCII, U+0085 and U+00A0. The separators
    28 to 31 are white space for [str.isspace] but not here: a character
    below 127 reaches the parser as it is, and the parser skips the six
    of [Py_ISSPACE] only. *)
Definition is_space (c : Ascii.ascii) : bool :=
  let n := Ascii.nat_of_ascii c in
  (((9 <=? n) && (n <=? 13)) || (n =? 32) || (n =? 133) || (n =? 160))%nat.

Definition digit_of (c : Ascii.ascii) : option Z :=
  let n := Ascii.nat_of_ascii c in
  if ((48 <=? n) && (n <=? 57))%nat then Some (Z.of_nat n - 48) else None.

Fixpoint lstrip (s : string) : string :=
  match s with
  | String c s' => if is_space c then lstrip s' else s
  | EmptyString => EmptyString
  end.

(** [str.isprintable] on one character: the printable part of ASCII, and
    from U+00A1 on everything but the soft hyphen. *)
Definition is_printable (c : Ascii.ascii) : bool :=
  let n := Ascii.nat_of_ascii c in
  (((32 <=? n) && (n <? 127)) || ((161 <=? n) && negb (n =? 173)))%nat.

Definition hex_digit (n : nat) : Ascii.ascii :=
  default "0"%char (String.get n "0123456789abcdef").

Definition double_quote : Ascii.ascii := Ascii.ascii_of_nat 34.

Fixpoint has_char (c : Ascii.ascii) (s : string) : bool :=
  match s with
  | EmptyString => false
  | String d s' => Ascii.eqb c d || has_char c s'
  end.

(** One character of a [repr] between quotes [quote]. *)
Definition escape (quote c : Ascii.ascii) : string :=
  let n := Ascii.nat_of_ascii c in
  if Ascii.eqb c quote || Ascii.eqb c "\"%char then String "\" (String c EmptyString)
  else if (n =? 9)%nat then "\t"
  else if (n =? 10)%nat then "\n"
  else if (n =? 13)%nat then "\r"
  else if is_printable c then String c EmptyString
  else String "\" (String "x"
         (String (hex_digit (n / 16)) (String (hex_digit (n mod 16)) EmptyString))).

Fixpoint escape_all (quote : Ascii.ascii) (s : string) : string :=
  match s with
  | EmptyString => EmptyString
  | String c s' => escape quote c +:+ escape_all quote s'
  end.

(** [repr(s)]: between single quotes, unless the string holds single
    quotes and no double quote. *)
Definition repr (s : string) : string :=
  let quote := if has_char "'" s && negb (has_char double_quote s)
               then double_quote else "'"%char in
  String quote (escape_all quote s +:+ String quote EmptyString).

(** [sys.get_int_max_str_digits()]. The handlers do not set it, so it has
    the value the interpreter starts with. *)
Definition int_max_str_digits : Z := 4300.

(** The digits a number starts with, where a single underscore may sit
    between two digits: their value, how many they are, and what follows
    them. [after_underscore] tells whether the character just read was an
    underscore; two in a row, or one at the end, make the literal bad. *)
Fixpoint scan (after_underscore : bool) (value count : Z) (s : string)
    : option (Z * Z * string) :=
  match s with
  | String c s' =>
      if Ascii.eqb c "_" then
        if after_underscore then None else scan true value count s'
      else
        match digit_of c with
        | Some d => scan false (10 * value + d) (count + 1) s'
        | None => if after_underscore then None else Some (value, count, s)
        end
  | EmptyString => if after_underscore then None else Some (value, count, s)
  end.

(** [int(s)]: white space, one sign, the digits, white space. More than
    [int_max_str_digits] digits are refused before they are converted;
    the limit is looked at for more than 640 digits only. The text of
    the other error shows the first 200 characters of [repr(s)]. *)
Definition int (s : string) : result Z :=
  let invalid :=
    Raise (ValueError ("invalid literal for int() with base 10: " +:+
                       String.substring 0 200 (repr s))) in
  let t := lstrip s in
  let '(sign, t) := match t with
                    | String "-" t' => (-1, t')
                    | String "+" t' => (1, t')
                    | _ => (1, t)
                    end in
  match t with
  | String "_" _ => invalid
  | _ =>
      match scan false 0 0 t with
      | None => invalid
      | Some (value, count, rest) =>
          if (640 <? count) && (0 <? int_max_str_digits) && (int_max_str_digits <? count)
          then Raise (ValueError
                 ("Exceeds the limit (" +:+ pretty int_max_str_digits +:+
                  " digits) for integer string conversion: value has " +:+
                  pretty count +:+
                  " digits; use sys.set_int_max_str_digits() to increase the limit"))
          else if count =? 0 then invalid
          else match lstrip rest with
               | EmptyString => Ok (sign * value)
               | _ => invalid
               end
      end
  end.

(** *** Floats

    A finite float is [m * 2^e] for integers [|m| < 2^53] and
    [-1074 <= e <= 971]. An operation computes its result exactly and
    rounds it to the nearest such number, to the one with even [m] when
    two are equally near. *)

(** [num / den] to the nearest integer, halves to the even one. *)
Definition round_half_even (num den : Z) : Z :=
  let q := num / den in
  match 2 * (num mod den) ?= den with
  | Lt => q
  | Gt => q + 1
  | Eq => if Z.even q then q else q + 1
  end.

(** The exponent [e] of the last place of [n/d > 0]: the one that puts
    [n/d / 2^e] between [2^52] and [2^53], and never below -1074. *)
Definition exponent (n d : Z) : Z :=
  let e := Z.log2 n - Z.log2 d - 52 in
  Z.max (-1074)
    (if 2 ^ 52 * (d * 2 ^ Z.max 0 e) <=? n * 2 ^ Z.max 0 (- e) then e else e - 1).

(** [n/d > 0] rounded, in lowest terms; nothing when the result is
    [2^1024] or more, which is beyond the largest float. *)
Definition round_pos (n d : Z) : option Q :=
  let e := exponent n d in
  let m := round_half_even (n * 2 ^ Z.max 0 (- e)) (d * 2 ^ Z.max 0 e) in
  if (0 <=? e) && (2 ^ 1024 <=? m * 2 ^ e) then None
  else Some (Qred (Qmake (m * 2 ^ Z.max 0 e) (Z.to_pos (2 ^ Z.max 0 (- e))))).

Definition round64 (x : Q) : option Q :=
  match Qnum x with
  | Z0 => Some 0%Q
  | Zpos n => round_pos (Zpos n) (Zpos (Qden x))
  | Zneg n => Qopp <$> round_pos (Zpos n) (Zpos (Qden x))
  end.

(** A float: a finite number or an infinity. No operation of the handlers
    yields a NaN. *)
Inductive float : Type :=
| Finite (q : Q)
| Infinity (negative : bool).

(** The float an operation returns for the exact result [x]. *)
Definition nearest (x : Q) : float :=
  match round64 x with
  | Some y => Finite y
  | None => Infinity (Qnum x <? 0)
  end.

(** [float(k)] for an int, as the arithmetic below applies it to an int
    operand. *)
Definition float_of_int (k : Z) : result Q :=
  match round64 (inject_Z k) with
  | Some y => Ok y
  | None => Raise (OverflowError "int too large to convert to float")
  end.

(** [a / b] for two ints: the quotient, rounded once. *)
Definition truediv (a b : Z) : result float :=
  if b =? 0 then Raise (ZeroDivisionError "division by zero")
  else
    match round64 (inject_Z a / inject_Z b) with
    | Some y => Ok (Finite y)
    | None => Raise (OverflowError "integer division result too large for a float")
    end.

(** [x / k] for a float and an int. *)
Definition fdiv (x : float) (k : Z) : result float :=
  rbind (float_of_int k) (fun d =>
    if Qeq_bool d 0 then Raise (ZeroDivisionError "float division by zero")
    else Ok match x with
            | Finite n => nearest (n / d)
            | Infinity negative => Infinity (xorb negative (Qnum d <? 0))
            end).

(** [x + k] for a float and an int. *)
Definition fadd (x : float) (k : Z) : result float :=
  rbind (float_of_int k) (fun d =>
    Ok match x with
       | Finite n => nearest (n + d)
       | Infinity negative => Infinity negative
       end).

(** [x >= k] for a float and an int: the two are compared as numbers,
    nothing is rounded. *)
Definition fge (x : float) (k : Z) : bool :=
  match x with
  | Finite n => Qle_bool (inject_Z k) n
  | Infinity negative => negb negative
  end.

(** The whole part of a number, towards zero. *)
Definition truncate (x : Q) : Z := Z.quot (Qnum x) (Zpos (Qden x)).

(** [int(x)] for a float. *)
Definition int_of_float (x : float) : result Z :=
  match x with
  | Finite n => Ok (truncate n)
  | Infinity _ => Raise (OverflowError "cannot convert float infinity to integer")
  end.

(** *** Effects

    A computation runs on a state [S]. It ends with a value or with an
    exception, and in both cases with a new state; [None] stands for a loop
    that has not finished within the fuel it was given. *)
Definition M (S A : Type) : Type := S -> option (result A * S).

Definition ret {S A} (a : A) : M S A := fun s => Some (Ok a, s).

Definition raise {S A} (e : exn) : M S A := fun s => Some (Raise e, s).

(** A computation that only evaluates an expression. *)
Definition pure {S A} (r : result A) : M S A := fun s => Some (r, s).

Definition bind {S A B} (m : M S A) (k : A -> M S B) : M S B :=
  fun s =>
    match m s with
    | Some (Ok a, s') => k a s'
    | Some (Raise e, s') => Some (Raise e, s')
    | None => None
    end.

(** [try: body / except Exception as e: handler(e)] *)
Definition try_except {S A} (body : M S A) (handler : exn -> M S A) : M S A :=
  fun s =>
    match body s with
    | Some (Ok a, s') => Some (Ok a, s')
    | Some (Raise e, s') => handler e s'
    | None => None
    end.

Notation "'let*' x ':=' m 'in' k" := (bind m (fun x => k))
  (at level 10, x pattern, m at level 100, k at level 200).

(** [for x in xs: body(x)]; an exception leaving the body leaves the loop. *)
Fixpoint for_each {S A} (xs : list A) (body : A -> M S unit) : M S unit :=
  match xs with
  | [] => ret tt
  | x :: xs' => let* _ := body x in for_each xs' body
  end.

End Py.

(** ** authorizer.py *)
Module Authorizer.
Import Py.

(** Line 21: [api_key is not None and len(api_key) > 0]. The conjunction
    short-circuits, so [len] is reached by every value other than [None]. *)
Definition validate (api_key : pyval) : result bool :=
  match api_key with
  | PNone => Ok false
  | _ => rbind (len api_key) (fun n => Ok (0 <? n))
  end.

(** Lines 14-32, the body of the [try]. [json.dumps(event)] and the two
    logger calls produce no value the handler uses and do not fail on a
    decoded JSON document, so they leave no trace here. *)
Definition authorize (event : pyval) : result pyval :=
  rbind (get event "headers" (PDict ∅)) (fun headers =>
  rbind (rbind (get headers "x-api-key" PNone) (fun k =>
           por k (get headers "X-API-Key" PNone))) (fun api_key =>
  rbind (validate api_key) (fun is_authorized =>
  Ok (PDict {[ "isAuthorized" := PBool is_authorized;
               "context" := PDict {[ "apiKey" :=
                  if is_authorized then api_key else PStr "invalid" ]} ]})))).

(** Lines 13-41: the [try] with its [except Exception] handler. *)
Definition lambda_handler (event : pyval) : pyval :=
  match authorize event with
  | Ok response => response
  | Raise _ =>
      PDict {[ "isAuthorized" := PBool false;
               "context" := PDict {[ "error" := PStr "Authorization failed" ]} ]}
  end.

(** The [isAuthorized] entry of a response. *)
Definition is_authorized (response : pyval) : option bool :=
  match response with
  | PDict d => match d !! "isAuthorized" with
               | Some (PBool b) => Some b
               | _ => None
               end
  | _ => None
  end.

(** An API Gateway request: a dict whose [headers] entry maps header names
    to string values. *)
Definition request (headers : gmap string string) (rest : gmap string pyval) : pyval :=
  PDict (<["headers" := PDict (PStr <$> headers)]> rest).

(** Spec-side reading of "a case-insensitive x-api-key header is present and
    non-empty". *)
Definition has_api_key_ci (headers : gmap string string) : Prop :=
  ∃ k v, lower k = "x-api-key" ∧ headers !! k = Some v ∧ v ≠ "".

(** The value line 18 binds to [api_key], given the headers dict: the
    entry under [x-api-key] when it is truthy, else the one under
    [X-API-Key], [None] standing for a missing entry. *)
Definition chosen_key (headers : gmap string pyval) : pyval :=
  let k := default PNone (headers !! "x-api-key") in
  if truthy k then k else default PNone (headers !! "X-API-Key").

(** A value that has a length, and a positive one. *)
Definition sized_nonempty (v : pyval) : Prop :=
  match v with
  | PStr s => s ≠ ""
  | PList l => l ≠ []
  | PDict d => d ≠ ∅
  | _ => False
  end.

(** The three responses the handler builds. *)
Definition granted (api_key : pyval) : pyval :=
  PDict {[ "isAuthorized" := PBool true;
           "context" := PDict {[ "apiKey" := api_key ]} ]}.

Definition denied : pyval :=
  PDict {[ "isAuthorized" := PBool false;
           "context" := PDict {[ "apiKey" := PStr "invalid" ]} ]}.

Definition refused : pyval :=
  PDict {[ "isAuthorized" := PBool false;
           "context" := PDict {[ "error" := PStr "Authorization failed" ]} ]}.

End Authorizer.

(** ** ephemeral-cleanup.py *)
Module EphemeralCleanup.
Import Py.

(** *** The world outside the function

    Everything the script reaches through [boto3] and the clock. Each
    operation takes the state of the world and returns the next one, so a
    deletion may change what a later call sees. A listing is the list of
    names the script reads out of the response; an error covers whatever
    the call or the reading of its response raises. *)

(** A [datetime] without time zone is one of the microseconds from
    [datetime.min], 0001-01-01 00:00:00, to [datetime.max],
    9999-12-31 23:59:59.999999. It is kept as the number of microseconds
    since [datetime.min]; [datetime.max.toordinal()] is 3652059. *)
Definition max_micros : Z := 3652059 * 86400 * 1000000 - 1.

Definition in_range (us : Z) : bool := (0 <=? us) && (us <=? max_micros).

Record datetime := { micros :> Z; micros_range : in_range micros = true }.

Class World (W : Type) := {
  (** [boto3.client(service)] *)
  client : string -> W -> result unit * W;
  (** [datetime.utcnow()] *)
  utcnow : W -> datetime * W;
  (** [list_tables()['TableNames']] *)
  list_tables : W -> result (list string) * W;
  (** [describe_table(TableName=t)['Table']['CreationDateTime']], with the
      date and time it shows and without its zone, which is what
      [replace(tzinfo=None)] makes of it *)
  describe_table : string -> W -> result datetime * W;
  delete_table : string -> W -> result unit * W;
  (** the [Name] of each entry of [list_buckets()['Buckets']] *)
  list_buckets : W -> result (list string) * W;
  (** [list_objects_v2(Bucket=b)]: the keys under [Contents], when present *)
  list_objects_v2 : string -> W -> result (option (list string)) * W;
  delete_objects : string -> list string -> W -> result unit * W;
  delete_bucket : string -> W -> result unit * W;
  (** the [Name] of each entry of [list_event_buses()['EventBuses']] *)
  list_event_buses : W -> result (list string) * W;
  delete_event_bus : string -> W -> result unit * W;
  (** one request of the [describe_log_groups] paginator: the names on the
      page and the token of the next page, if there is one *)
  describe_log_groups : option string -> W -> result (list string * option string) * W;
  delete_log_group : string -> W -> result unit * W
}.

(** An entry of [resources_cleaned]. *)
Record Outcome := {
  res_type : string;
  res_name : string;
  res_status : string;
  res_error : option string
}.

(** The [cleanup_results] dict; the last four keys are set on the way. *)
Record CleanupResults := {
  environment_prefix : string;
  auto_destroy_hours : Z;
  cleanup_timestamp : Z;
  resources_cleaned : list Outcome;
  action : option string;
  reason : option string;
  status : option string;
  error : option string
}.

(** What [json.dumps] is applied to in the [body] of a response. *)
Inductive Body :=
| ErrorBody (message : string)
| ReportBody (report : CleanupResults).

Record Response := { statusCode : Z; body : Body }.

Section Script.
Context {W : Type} `{World W}.

(** The state the script runs on: the world and the one [cleanup_results]
    dict, which the handler creates and every sweeper appends to. *)
Record Mem := { world : W; results : CleanupResults }.

Definition set_world (w : W) (m : Mem) : Mem :=
  {| world := w; results := results m |}.

Definition set_results (r : CleanupResults) (m : Mem) : Mem :=
  {| world := world m; results := r |}.

(** A call into the world. *)
Definition call {A} (op : W -> result A * W) : M Mem A :=
  fun m => let (r, w) := op (world m) in Some (r, set_world w m).

Definition now : M Mem datetime :=
  call (fun w => let (t, w') := utcnow w in (Ok t, w')).

(** [results['resources_cleaned'].append(o)] *)
Definition append (o : Outcome) : M Mem unit :=
  fun m =>
    let r := results m in
    Some (Ok tt, set_results
      {| environment_prefix := environment_prefix r;
         auto_destroy_hours := auto_destroy_hours r;
         cleanup_timestamp := cleanup_timestamp r;
         resources_cleaned := resources_cleaned r ++ [o];
         action := action r; reason := reason r;
         status := status r; error := error r |} m).

Definition deleted (type name : string) : Outcome :=
  {| res_type := type; res_name := name; res_status := "deleted"; res_error := None |}.

Definition failed (type name : string) (e : exn) : Outcome :=
  {| res_type := type; res_name := name; res_status := "error";
     res_error := Some (str_exn e) |}.

(** [timedelta.total_seconds()] of a difference of [age] microseconds:
    [age / 10**6], an int by an int. *)
Definition total_seconds (age : Z) : result float := truediv age (10 ^ 6).

(** Lines 102-103: the difference of the two datetimes is exact, its
    seconds are a float, and so are the hours. *)
Definition age_hours (now creation_time : datetime) : result float :=
  rbind (total_seconds (now - creation_time)) (fun seconds => fdiv seconds 3600).

(** Lines 81-111. *)
Definition should_cleanup_environment
    (environment_prefix : string) (auto_destroy_hours : Z) : M Mem bool :=
  try_except
    (let* _ := call (client "dynamodb") in
     let* tables := call list_tables in
     let env_tables := List.filter (fun table => startswith table environment_prefix) tables in
     match env_tables with
     | [] => ret true
     | table_name :: _ =>
         let* creation_time := call (describe_table table_name) in
         let* t := now in
         let* age := pure (age_hours t creation_time) in
         ret (fge age auto_destroy_hours)
     end)
    (fun e => ret true).

(** Lines 113-142. *)
Definition cleanup_dynamodb_tables (environment_prefix : string) : M Mem unit :=
  let* _ := call (client "dynamodb") in
  try_except
    (let* tables := call list_tables in
     let env_tables := List.filter (fun table => startswith table environment_prefix) tables in
     for_each env_tables (fun table_name =>
       try_except
         (let* _ := call (delete_table table_name) in
          append (deleted "dynamodb_table" table_name))
         (fun e => append (failed "dynamodb_table" table_name e))))
    (fun e => ret tt).

(** Lines 159-168: the objects of a bucket, best effort. *)
Definition delete_all_objects (bucket_name : string) : M Mem unit :=
  try_except
    (let* objects := call (list_objects_v2 bucket_name) in
     match objects with
     | Some delete_keys => call (delete_objects bucket_name delete_keys)
     | None => ret tt
     end)
    (fun e => ret tt).

(** Lines 144-188. *)
Definition cleanup_s3_buckets (environment_prefix : string) : M Mem unit :=
  let* _ := call (client "s3") in
  try_except
    (let* buckets := call list_buckets in
     let env_buckets := List.filter (fun bucket => startswith bucket environment_prefix) buckets in
     for_each env_buckets (fun bucket_name =>
       try_except
         (let* _ := delete_all_objects bucket_name in
          let* _ := call (delete_bucket bucket_name) in
          append (deleted "s3_bucket" bucket_name))
         (fun e => append (failed "s3_bucket" bucket_name e))))
    (fun e => ret tt).

(** Lines 190-219. *)
Definition cleanup_eventbridge_buses (environment_prefix : string) : M Mem unit :=
  let* _ := call (client "events") in
  try_except
    (let* buses := call list_event_buses in
     let env_buses := List.filter (fun bus => startswith bus environment_prefix) buses in
     for_each env_buses (fun bus_name =>
       try_except
         (let* _ := call (delete_event_bus bus_name) in
          append (deleted "eventbridge_bus" bus_name))
         (fun e => append (failed "eventbridge_bus" bus_name e))))
    (fun e => ret tt).

(** [for page in paginator.paginate(): body(page['logGroups'])]. The
    paginator asks for a page, hands it to the body, and goes on with the
    token the page came with until a page comes without one. *)
Fixpoint for_page (fuel : nat) (token : option string)
    (body : list string -> M Mem unit) : M Mem unit :=
  match fuel with
  | O => fun _ => None
  | S fuel' =>
      let* page := call (describe_log_groups token) in
      let* _ := body (fst page) in
      match snd page with
      | None => ret tt
      | Some next => for_page fuel' (Some next) body
      end
  end.

(** Lines 221-253. *)
Definition cleanup_cloudwatch_logs (fuel : nat) (environment_prefix : string) : M Mem unit :=
  let* _ := call (client "logs") in
  try_except
    (for_page fuel None (fun log_groups =>
       let env_log_groups := List.filter (fun lg => contains environment_prefix lg) log_groups in
       for_each env_log_groups (fun log_group_name =>
         try_except
           (let* _ := call (delete_log_group log_group_name) in
            append (deleted "cloudwatch_log_group" log_group_name))
           (fun e => append (failed "cloudwatch_log_group" log_group_name e)))))
    (fun e => ret tt).

Definition with_action (a : string) (r : CleanupResults) : CleanupResults :=
  {| environment_prefix := environment_prefix r;
     auto_destroy_hours := auto_destroy_hours r;
     cleanup_timestamp := cleanup_timestamp r;
     resources_cleaned := resources_cleaned r;
     action := Some a; reason := reason r;
     status := status r; error := error r |}.

Definition with_reason (x : string) (r : CleanupResults) : CleanupResults :=
  {| environment_prefix := environment_prefix r;
     auto_destroy_hours := auto_destroy_hours r;
     cleanup_timestamp := cleanup_timestamp r;
     resources_cleaned := resources_cleaned r;
     action := action r; reason := Some x;
     status := status r; error := error r |}.

Definition with_status (x : string) (r : CleanupResults) : CleanupResults :=
  {| environment_prefix := environment_prefix r;
     auto_destroy_hours := auto_destroy_hours r;
     cleanup_timestamp := cleanup_timestamp r;
     resources_cleaned := resources_cleaned r;
     action := action r; reason := reason r;
     status := Some x; error := error r |}.

Definition with_error (x : string) (r : CleanupResults) : CleanupResults :=
  {| environment_prefix := environment_prefix r;
     auto_destroy_hours := auto_destroy_hours r;
     cleanup_timestamp := cleanup_timestamp r;
     resources_cleaned := resources_cleaned r;
     action := action r; reason := reason r;
     status := status r; error := Some x |}.

(** [cleanup_results[key] = value] for the four keys set on the way. *)
Definition assign (f : CleanupResults -> CleanupResults) : M Mem unit :=
  fun m => Some (Ok tt, set_results (f (results m)) m).

(** [{'statusCode': code, 'body': json.dumps(cleanup_results)}] *)
Definition respond (code : Z) : M Mem Response :=
  fun m => Some (Ok {| statusCode := code; body := ReportBody (results m) |}, m).

(** Lines 41-46: the report of a sweep that does not take place. *)
Definition skip : M Mem Response :=
  let* _ := assign (with_action "skipped") in
  let* _ := assign (with_reason "Environment not old enough for cleanup") in
  respond 200.

(** Lines 48-68: the four sweepers in their fixed order, then the report. *)
Definition sweep_all (fuel : nat) (environment_prefix : string) : M Mem Response :=
  let* _ := cleanup_dynamodb_tables environment_prefix in
  let* _ := cleanup_s3_buckets environment_prefix in
  let* _ := cleanup_eventbridge_buses environment_prefix in
  let* _ := cleanup_cloudwatch_logs fuel environment_prefix in
  let* _ := assign (with_action "completed") in
  let* _ := assign (with_status "success") in
  respond 200.

(** Lines 70-79: the [except] of the handler. *)
Definition report_failure (e : exn) : M Mem Response :=
  let error_message := "Cleanup failed: " +:+ str_exn e in
  let* _ := assign (with_action "failed") in
  let* _ := assign (with_error error_message) in
  respond 500.

(** Lines 38-79: the [try] of the handler and its [except]. *)
Definition run_cleanup (fuel : nat) (environment_prefix : string)
    (auto_destroy_hours : Z) : M Mem Response :=
  try_except
    (let* old := should_cleanup_environment environment_prefix auto_destroy_hours in
     if negb old then skip else sweep_all fuel environment_prefix)
    report_failure.

(** Lines 31-36: the dict as the handler creates it. *)
Definition initial_results (environment_prefix : string) (auto_destroy_hours : Z)
    (t : Z) : CleanupResults :=
  {| environment_prefix := environment_prefix;
     auto_destroy_hours := auto_destroy_hours;
     cleanup_timestamp := t;
     resources_cleaned := [];
     action := None; reason := None; status := None; error := None |}.

(** Lines 15-79. [environ] is [os.environ]; the handler ignores its event
    and context. An exception leaving it is the [ValueError] of [int]. *)
Definition lambda_handler (fuel : nat) (environ : gmap string string) : M W Response :=
  fun w =>
    let environment_prefix := default "" (environ !! "ENVIRONMENT_PREFIX") in
    match int (default "24" (environ !! "AUTO_DESTROY_HOURS")) with
    | Raise e => Some (Raise e, w)
    | Ok auto_destroy_hours =>
        if String.eqb environment_prefix "" then
          Some (Ok {| statusCode := 400;
                      body := ErrorBody "ENVIRONMENT_PREFIX not configured" |}, w)
        else
          let (t, w1) := utcnow w in
          let cleanup_results :=
            initial_results environment_prefix auto_destroy_hours t in
          match run_cleanup fuel environment_prefix auto_destroy_hours
                  {| world := w1; results := cleanup_results |} with
          | Some (r, m) => Some (r, world m)
          | None => None
          end
    end.

(** Lines 255-265, the local test run: the two settings are written into
    [os.environ] over whatever is there, then the handler is called. *)
Definition main (fuel : nat) (environ : gmap string string) : M W Response :=
  lambda_handler fuel
    (<["AUTO_DESTROY_HOURS" := "1"]>
       (<["ENVIRONMENT_PREFIX" := "test-ephemeral-dev-feature"]> environ)).

(** *** Vocabulary for the statements

    What the sweepers are compared with: the answers the world gives to a
    sequence of deletions, and the entries those answers stand for. *)

(** The entry recorded for one deletion attempt, from its result. *)
Definition attempt (type name : string) (r : result unit) : Outcome :=
  match r with
  | Ok _ => deleted type name
  | Raise e => failed type name e
  end.

(** The results of deleting [names] one after the other, and the world
    left behind. *)
Fixpoint run_deletes (del : string -> W -> result unit * W)
    (names : list string) (w : W) : list (result unit) * W :=
  match names with
  | [] => ([], w)
  | name :: names' =>
      let (r, w1) := del name w in
      let (rs, w2) := run_deletes del names' w1 in
      (r :: rs, w2)
  end.

(** [resources_cleaned] extended by [os]. *)
Definition add_outcomes (os : list Outcome) (r : CleanupResults) : CleanupResults :=
  {| environment_prefix := environment_prefix r;
     auto_destroy_hours := auto_destroy_hours r;
     cleanup_timestamp := cleanup_timestamp r;
     resources_cleaned := resources_cleaned r ++ os;
     action := action r; reason := reason r;
     status := status r; error := error r |}.

(** The world after the object phase of a bucket, whatever its fate. *)
Definition empty_bucket (bucket_name : string) (w : W) : W :=
  match list_objects_v2 bucket_name w with
  | (Ok (Some delete_keys), w1) => snd (delete_objects bucket_name delete_keys w1)
  | (Ok None, w1) => w1
  | (Raise _, w1) => w1
  end.

(** The two phases of a bucket as one deletion. *)
Definition remove_bucket (bucket_name : string) (w : W) : result unit * W :=
  delete_bucket bucket_name (empty_bucket bucket_name w).

(** The three sweepers that list once and match on the start of a name. *)
Inductive Kind := Table | Bucket | Bus.

Definition service (k : Kind) : string :=
  match k with Table => "dynamodb" | Bucket => "s3" | Bus => "events" end.

Definition type_of (k : Kind) : string :=
  match k with
  | Table => "dynamodb_table" | Bucket => "s3_bucket" | Bus => "eventbridge_bus"
  end.

Definition listing (k : Kind) : W -> result (list string) * W :=
  match k with
  | Table => list_tables | Bucket => list_buckets | Bus => list_event_buses
  end.

Definition deletion (k : Kind) : string -> W -> result unit * W :=
  match k with
  | Table => delete_table | Bucket => remove_bucket | Bus => delete_event_bus
  end.

Definition sweeper (k : Kind) : string -> M Mem unit :=
  match k with
  | Table => cleanup_dynamodb_tables
  | Bucket => cleanup_s3_buckets
  | Bus => cleanup_eventbridge_buses
  end.

(** The names a sweeper of these kinds keeps from a listing. *)
Definition swept (environment_prefix : string) (names : list string) : list string :=
  List.filter (fun name => startswith name environment_prefix) names.

Definition is_failure (r : result unit) : bool :=
  match r with Ok _ => false | Raise _ => true end.

Definition has_status (s : string) (o : Outcome) : bool :=
  String.eqb (res_status o) s.

(** An entry as a sweeper of type [type] writes it. *)
Definition entry_of (type : string) (o : Outcome) : Prop :=
  res_type o = type ∧
  (res_status o = "deleted" ∧ res_error o = None ∨
   res_status o = "error" ∧ ∃ msg, res_error o = Some msg).

(** Entries in the order of the four sweepers: tables, then buckets, then
    event buses, then log groups. *)
Definition grouped (os : list Outcome) : Prop :=
  ∃ tables buckets buses logs,
    os = tables ++ buckets ++ buses ++ logs ∧
    Forall (entry_of "dynamodb_table") tables ∧
    Forall (entry_of "s3_bucket") buckets ∧
    Forall (entry_of "eventbridge_bus") buses ∧
    Forall (entry_of "cloudwatch_log_group") logs.

(** The names the log sweeper keeps from a page. *)
Definition log_matches (environment_prefix : string) (page : list string) : list string :=
  List.filter (fun lg => contains environment_prefix lg) page.

(** Starting with [token] in world [w], and with the deletions of the log
    sweeper running between two requests, the paginator hands out exactly
    [pages] and stops. *)
Fixpoint paginator_yields (environment_prefix : string) (token : option string)
    (pages : list (list string)) (w : W) : Prop :=
  match pages with
  | [] => False
  | page :: rest =>
      ∃ next w1,
        describe_log_groups token w = (Ok (page, next), w1) ∧
        match rest with
        | [] => next = None
        | _ =>
            ∃ t, next = Some t ∧
              paginator_yields environment_prefix (Some t) rest
                (snd (run_deletes delete_log_group
                        (log_matches environment_prefix page) w1))
        end
  end.

(** The same with nothing deleted between two requests: the requests
    lead from world [w] to world [w']. *)
Fixpoint paginator_reads (token : option string) (pages : list (list string))
    (w w' : W) : Prop :=
  match pages with
  | [] => False
  | page :: rest =>
      ∃ next w1,
        describe_log_groups token w = (Ok (page, next), w1) ∧
        match rest with
        | [] => next = None ∧ w' = w1
        | _ => ∃ t, next = Some t ∧ paginator_reads (Some t) rest w1 w'
        end
  end.

End Script.

Arguments Mem : clear implicits.

(** *** A world to run the script in

    Tables with their creation time, buckets with their keys, event buses
    and log groups laid out in pages. An operation whose description is
    listed in [broken] fails; every operation is written to [trace]. *)
Record Fake := {
  clock : datetime;
  tables : list (string * datetime);
  buckets : list (string * list string);
  buses : list string;
  log_pages : list (list string);
  broken : list string;
  trace : list string
}.

Definition logged (op : string) (w : Fake) : Fake :=
  {| clock := clock w; tables := tables w; buckets := buckets w;
     buses := buses w; log_pages := log_pages w; broken := broken w;
     trace := trace w ++ [op] |}.

(** Run [op]: fail when it is listed as broken, otherwise answer with
    [f] on the current state. *)
Definition fake_call {A} (op : string) (f : Fake -> result A * Fake) (w : Fake)
    : result A * Fake :=
  let w' := logged op w in
  if existsb (String.eqb op) (broken w)
  then (Raise (ClientError ("An error occurred when calling " +:+ op)), w')
  else f w'.

Definition without (name : string) (names : list string) : list string :=
  List.filter (fun n => negb (String.eqb n name)) names.

Definition without_key {A} (name : string) (l : list (string * A)) : list (string * A) :=
  List.filter (fun p => negb (String.eqb (fst p) name)) l.

Definition find_key {A} (name : string) (l : list (string * A)) : option A :=
  snd <$> List.find (fun p => String.eqb (fst p) name) l.

(** The datetime [us] microseconds after [datetime.min]; [datetime.min]
    itself when there is none. *)
Definition moment (us : Z) : datetime :=
  match in_range us as b return in_range us = b -> datetime with
  | true => fun range => {| micros := us; micros_range := range |}
  | false => fun _ => {| micros := 0; micros_range := eq_refl |}
  end eq_refl.

(** Page tokens count the pages already handed out, in unary. *)
Fixpoint unary (n : nat) : string :=
  match n with
  | O => ""
  | S n' => String "I" (unary n')
  end.

Definition page_index (token : option string) : nat :=
  match token with
  | None => O
  | Some t => String.length t
  end.

#[export] Instance fake_world : World Fake := {|
  client service := fake_call ("client " +:+ service) (fun w => (Ok tt, w));
  utcnow w := (clock w, w);
  list_tables := fake_call "list_tables" (fun w => (Ok (fst <$> tables w), w));
  describe_table t :=
    fake_call ("describe_table " +:+ t) (fun w =>
      match find_key t (tables w) with
      | Some created => (Ok created, w)
      | None => (Raise (ClientError "ResourceNotFoundException"), w)
      end);
  delete_table t :=
    fake_call ("delete_table " +:+ t) (fun w =>
      (Ok tt, {| clock := clock w; tables := without_key t (tables w);
                 buckets := buckets w; buses := buses w;
                 log_pages := log_pages w; broken := broken w; trace := trace w |}));
  list_buckets := fake_call "list_buckets" (fun w => (Ok (fst <$> buckets w), w));
  list_objects_v2 b :=
    fake_call ("list_objects_v2 " +:+ b) (fun w =>
      match find_key b (buckets w) with
      | Some [] => (Ok None, w)
      | Some keys => (Ok (Some keys), w)
      | None => (Raise (ClientError "NoSuchBucket"), w)
      end);
  delete_objects b keys :=
    fake_call ("delete_objects " +:+ b) (fun w =>
      (Ok tt, {| clock := clock w; tables := tables w;
                 buckets := (fun p => if String.eqb (fst p) b
                                      then (fst p, foldr without (snd p) keys)
                                      else p) <$> buckets w;
                 buses := buses w; log_pages := log_pages w;
                 broken := broken w; trace := trace w |}));
  delete_bucket b :=
    fake_call ("delete_bucket " +:+ b) (fun w =>
      (Ok tt, {| clock := clock w; tables := tables w;
                 buckets := without_key b (buckets w); buses := buses w;
                 log_pages := log_pages w; broken := broken w; trace := trace w |}));
  list_event_buses := fake_call "list_event_buses" (fun w => (Ok (buses w), w));
  delete_event_bus b :=
    fake_call ("delete_event_bus " +:+ b) (fun w =>
      (Ok tt, {| clock := clock w; tables := tables w; buckets := buckets w;
                 buses := without b (buses w); log_pages := log_pages w;
                 broken := broken w; trace := trace w |}));
  describe_log_groups token :=
    fake_call ("describe_log_groups " +:+ unary (page_index token)) (fun w =>
      let i := page_index token in
      (Ok (nth i (log_pages w) [],
           if (S i <? length (log_pages w))%nat then Some (unary (S i)) else None), w));
  delete_log_group g :=
    fake_call ("delete_log_group " +:+ g) (fun w =>
      (Ok tt, {| clock := clock w; tables := tables w; buckets := buckets w;
                 buses := buses w; log_pages := without g <$> log_pages w;
                 broken := broken w; trace := trace w |}))
|}.

(** A six-hour-old environment [dev-feat1-] next to resources of others. *)
Definition hour : Z := 3600 * 1000000.

Definition sample : Fake :=
  {| clock := moment (30 * hour);
     tables := [("prod-users", moment 0); ("dev-feat1-users", moment (24 * hour));
                ("dev-feat1-orders", moment (25 * hour))];
     buckets := [("dev-feat1-assets", ["a.png"; "b.png"; "c.png"]);
                 ("prod-assets", ["logo.png"])];
     buses := ["default"; "dev-feat1-bus"];
     log_pages := [["/aws/lambda/dev-feat1-api"; "/aws/lambda/prod-api"];
                   ["dev-feat1-audit"]];
     broken := [];
     trace := [] |}.

Definition break (ops : list string) (w : Fake) : Fake :=
  {| clock := clock w; tables := tables w; buckets := buckets w;
     buses := buses w; log_pages := log_pages w; broken := ops ++ broken w;
     trace := trace w |}.

Definition at_time (t : Z) (w : Fake) : Fake :=
  {| clock := moment t; tables := tables w; buckets := buckets w;
     buses := buses w; log_pages := log_pages w; broken := broken w;
     trace := trace w |}.

(** The state the handler starts the sweep of [dev-feat1-] in. *)
Definition sample_mem (w : Fake) : Mem Fake :=
  {| world := w; results := initial_results "dev-feat1-" 24 (clock w) |}.

Definition sample_environ : gmap string string :=
  {[ "ENVIRONMENT_PREFIX" := "dev-feat1-"; "AUTO_DESTROY_HOURS" := "24" ]}.

End EphemeralCleanup.

(** ** event_processor.py *)
Module EventProcessor.
Import Py.

(** The item written to the audit table. [timestamp] is the reading of
    the clock that [isoformat] renders, [detail] the value that
    [json.dumps] renders. *)
Record AuditEntry := {
  event_id : string;
  timestamp : Z;
  event_type : pyval;
  source : pyval;
  detail : pyval;
  ttl : Z
}.

(** What the handler reaches outside itself. Times are microseconds since
    the epoch. *)
Class Runtime (R : Type) := {
  (** [str(uuid.uuid4())] *)
  uuid4 : R -> string * R;
  (** [datetime.now(timezone.utc)] *)
  now : R -> Z * R;
  (** [dynamodb.Table(table_name).put_item(Item=item)] *)
  put_item : string -> AuditEntry -> R -> result unit * R
}.

(** The [body] of a response, before [json.dumps] where the handler
    applies it. *)
Inductive Body :=
| Plain (text : string)
| Processed (message : string) (eventId : string)
| Failed (error : string) (message : string).

Record Response := { statusCode : Z; body : Body }.

(** [datetime.timestamp()] of an aware datetime: the microseconds since
    the epoch as a [timedelta], and its [total_seconds()], which is
    [t / 10**6], an int by an int. *)
Definition seconds (t : Z) : result float := truediv t (10 ^ 6).

(** [datetime.max] on the UTC clock, in microseconds since the epoch. *)
Definition max_timestamp : Z := 253402300799999999.

(** Line 43: [int(now.timestamp() + (90 * 24 * 60 * 60))]. *)
Definition expiry (t : Z) : result Z :=
  rbind (seconds t) (fun s =>
  rbind (fadd s (90 * 24 * 60 * 60)) int_of_float).

Section Handler.
Context {R : Type} `{Runtime R}.

Definition effect {A} (op : R -> A * R) : M R A :=
  fun s => let (a, s') := op s in Some (Ok a, s').

Definition call {A} (op : R -> result A * R) : M R A :=
  fun s => Some (op s).

(** Lines 19-57, the body of the [try]. The entries of the item are
    evaluated in the order they are written, so the clock is read twice,
    after the identifier is drawn. *)
Definition process (environ : gmap string string) (event : pyval) : M R Response :=
  match environ !! "AUDIT_TABLE_NAME" with
  | None | Some "" => ret {| statusCode := 500; body := Plain "Configuration error" |}
  | Some table_name =>
      let* detail := pure (get event "detail" (PDict ∅)) in
      let* detail_type := pure (get event "detail-type" (PStr "Unknown")) in
      let* source := pure (get event "source" (PStr "Unknown")) in
      let* id := effect uuid4 in
      let* t := effect now in
      let* t' := effect now in
      let* ttl := pure (expiry t') in
      let audit_entry :=
        {| event_id := id;
           timestamp := t;
           event_type := detail_type;
           source := source;
           detail := detail;
           ttl := ttl |} in
      let* _ := call (put_item table_name audit_entry) in
      ret {| statusCode := 200;
             body := Processed "Event processed successfully" (event_id audit_entry) |}
  end.

(** Lines 13-67. *)
Definition lambda_handler (environ : gmap string string) (event : pyval) : M R Response :=
  try_except (process environ event)
    (fun e => ret {| statusCode := 500;
                     body := Failed "Event processing failed" (str_exn e) |}).

End Handler.

(** *** A runtime to run the handler in

    Identifiers are numbered, the clock moves on by a millisecond at each
    reading, and the table keeps what is written while [writable]. *)
Record Fake := {
  drawn : nat;
  clock : Z;
  items : list (string * AuditEntry);
  writable : bool
}.

Fixpoint tally (n : nat) : string :=
  match n with
  | O => ""
  | S n' => String "I" (tally n')
  end.

#[export] Instance fake_runtime : Runtime Fake := {|
  uuid4 r := ("uuid-" +:+ tally (drawn r),
              {| drawn := S (drawn r); clock := clock r;
                 items := items r; writable := writable r |});
  now r := (clock r,
            {| drawn := drawn r; clock := clock r + 1000;
               items := items r; writable := writable r |});
  put_item table_name item r :=
    if writable r
    then (Ok tt, {| drawn := drawn r; clock := clock r;
                    items := items r ++ [(table_name, item)]; writable := true |})
    else (Raise (ClientError "AccessDeniedException"), r)
|}.

Definition sample : Fake :=
  {| drawn := 0; clock := 1700000000123456; items := []; writable := true |}.

(** An event as the bus delivers it. *)
Definition order_created : gmap string pyval :=
  {[ "source" := PStr "orders";
     "detail-type" := PStr "OrderCreated";
     "detail" := PDict {[ "orderId" := PInt 42 ]} ]}.

End EventProcessor.

(** ** Properties of the runtime *)
Section RuntimeProperties.
Import Py.

Lemma round_half_even_bounds (num den : Z) :
  0 < den →
  num / den ≤ round_half_even num den ≤ num / den + 1 ∧
  (num mod den = 0 → round_half_even num den = num / den).
Proof.
  intros Hden. unfold round_half_even.
  destruct (Z.compare_spec (2 * (num mod den)) den) as [Heq|Hlt|Hgt].
  - destruct (Z.even (num / den)); split; try lia.
  - split; [lia|done].
  - split; [lia|]. intros Hr. rewrite Hr in Hgt. lia.
Qed.

Lemma pow2_pos (k : Z) : 0 < 2 ^ k ∨ (k < 0 ∧ 2 ^ k = 0).
Proof.
  destruct (Z.neg_nonneg_cases k) as [Hneg|Hpos].
  - right. split; [done|]. by apply Z.pow_neg_r.
  - left. by apply Z.pow_pos_nonneg.
Qed.

Lemma pow2_max_pos (k : Z) : 0 < 2 ^ Z.max 0 k.
Proof. apply Z.pow_pos_nonneg; lia. Qed.

(** With an exponent above the smallest one, the scaled fraction has a
    whole part of at least [2^52]: the number is normal. *)
Lemma exponent_normal (n d : Z) :
  0 < n → 0 < d → -1074 < exponent n d →
  2 ^ 52 * (d * 2 ^ Z.max 0 (exponent n d)) ≤ n * 2 ^ Z.max 0 (- exponent n d).
Proof.
  intros Hn Hd. unfold exponent.
  set (a := Z.log2 n). set (b := Z.log2 d). set (e1 := a - b - 52).
  destruct (Z.leb_spec (2 ^ 52 * (d * 2 ^ Z.max 0 e1)) (n * 2 ^ Z.max 0 (- e1)))
    as [Htest|Htest]; intros Hnormal.
  - by replace (Z.max (-1074) e1) with e1 by lia.
  - replace (Z.max (-1074) (e1 - 1)) with (e1 - 1) by lia.
    set (e0 := e1 - 1) in *.
    pose proof (Z.log2_nonneg n) as Ha. pose proof (Z.log2_nonneg d) as Hb.
    destruct (Z.log2_spec n Hn) as [Hn1 Hn2]. destruct (Z.log2_spec d Hd) as [Hd1 Hd2].
    fold a in Hn1, Hn2, Ha. fold b in Hd1, Hd2, Hb.
    pose proof (pow2_max_pos e0) as Hu. pose proof (pow2_max_pos (- e0)) as Hv.
    transitivity (2 ^ 52 * (2 ^ Z.succ b * 2 ^ Z.max 0 e0)).
    { apply Z.mul_le_mono_nonneg_l; [lia|]. apply Z.mul_le_mono_nonneg_r; lia. }
    transitivity (2 ^ a * 2 ^ Z.max 0 (- e0)).
    { rewrite <- !Z.pow_add_r by lia.
      replace (52 + (Z.succ b + Z.max 0 e0)) with (a + Z.max 0 (- e0)) by lia. lia. }
    apply Z.mul_le_mono_nonneg_r; lia.
Qed.

Lemma round_pos_value (n d : Z) (y : Q) :
  round_pos n d = Some y →
  let e := exponent n d in
  let m := round_half_even (n * 2 ^ Z.max 0 (- e)) (d * 2 ^ Z.max 0 e) in
  (y == Qmake (m * 2 ^ Z.max 0 e) (Z.to_pos (2 ^ Z.max 0 (- e))))%Q ∧
  (0 ≤ e → m * 2 ^ e < 2 ^ 1024).
Proof.
  unfold round_pos. cbv zeta.
  destruct (Z.leb_spec 0 (exponent n d)) as [He|He]; cbn [andb].
  - destruct (2 ^ 1024 <=? _) eqn:Hfits; [done|]. apply Z.leb_gt in Hfits.
    intros [= <-]. split; [apply Qred_correct | done].
  - intros [= <-]. split; [apply Qred_correct | lia].
Qed.

(** Rounding does not cross a float: a float [j/2^p] below the number
    stays below the rounded number. *)
Lemma round_pos_ge (n d : Z) (y : Q) (j p : Z) :
  0 < n → 0 < d → round_pos n d = Some y →
  0 ≤ p ≤ 1074 → j < 2 ^ 53 →
  j * d ≤ n * 2 ^ p →
  (j # Z.to_pos (2 ^ p) <= y)%Q.
Proof.
  intros Hn Hd Hy Hp Hj Hle.
  apply round_pos_value in Hy as [-> _].
  set (e := exponent n d) in *.
  set (u := Z.max 0 e). set (v := Z.max 0 (- e)).
  set (num := n * 2 ^ v). set (den := d * 2 ^ u).
  pose proof (pow2_max_pos e) as Hu. pose proof (pow2_max_pos (- e)) as Hv.
  fold u in Hu. fold v in Hv.
  assert (0 < 2 ^ p) as Hpp by (apply Z.pow_pos_nonneg; lia).
  assert (0 < den) as Hden by (unfold den; lia).
  destruct (round_half_even_bounds num den Hden) as [[Hlow _] _].
  set (m := round_half_even num den) in *.
  assert (0 ≤ num / den) as Hq by (apply Z.div_pos; unfold num; lia).
  unfold Qle. cbn [Qnum Qden]. rewrite !Z2Pos.id by done.
  destruct (Z.le_gt_cases j 0) as [Hneg|Hpos].
  { transitivity 0; [apply Z.mul_nonpos_nonneg; lia|].
    apply Z.mul_nonneg_nonneg; [apply Z.mul_nonneg_nonneg|]; lia. }
  destruct (Z.le_gt_cases e (- p)) as [Hlow_e|Hhigh_e].
  - assert (u = 0) as -> by (unfold u; lia).
    assert (v = p + (v - p)) as Hsplit by lia.
    assert (0 ≤ v - p) as Hvp by (unfold v; lia).
    assert (0 < 2 ^ (v - p)) as Hpvp by (by apply Z.pow_pos_nonneg).
    assert (j * 2 ^ (v - p) ≤ num / den) as Hk.
    { apply Z.div_le_lower_bound; [done|]. unfold den, num.
      rewrite Z.pow_0_r, Z.mul_1_r. rewrite Hsplit at 2.
      rewrite Z.pow_add_r by lia. nia. }
    rewrite Z.pow_0_r, Z.mul_1_r. rewrite Hsplit at 1.
    rewrite Z.pow_add_r by lia. nia.
  - pose proof (exponent_normal n d Hn Hd) as Hnormal. fold e u v num den in Hnormal.
    assert (2 ^ 52 ≤ num / den) as Hq52.
    { apply Z.div_le_lower_bound; [done|]. rewrite Z.mul_comm. apply Hnormal. lia. }
    assert (2 ^ 53 * 2 ^ v ≤ 2 ^ 52 * (2 ^ u * 2 ^ p)) as Hpow.
    { rewrite <- !Z.pow_add_r by (unfold u, v; lia).
      apply Z.pow_le_mono_r; unfold u, v; lia. }
    assert (0 < 2 ^ 52) by done.
    transitivity (2 ^ 53 * 2 ^ v); [nia|].
    transitivity (2 ^ 52 * (2 ^ u * 2 ^ p)); [done|].
    rewrite <- Z.mul_assoc. apply Z.mul_le_mono_nonneg_r; [nia | lia].
Qed.

Lemma round_pos_le (n d : Z) (y : Q) (j p : Z) :
  0 < n → 0 < d → round_pos n d = Some y →
  0 ≤ p ≤ 1074 → j < 2 ^ 53 →
  n * 2 ^ p ≤ j * d →
  (y <= j # Z.to_pos (2 ^ p))%Q.
Proof.
  intros Hn Hd Hy Hp Hj Hle.
  apply round_pos_value in Hy as [-> _].
  set (e := exponent n d) in *.
  set (u := Z.max 0 e). set (v := Z.max 0 (- e)).
  set (num := n * 2 ^ v). set (den := d * 2 ^ u).
  pose proof (pow2_max_pos e) as Hu. pose proof (pow2_max_pos (- e)) as Hv.
  fold u in Hu. fold v in Hv.
  assert (0 < 2 ^ p) as Hpp by (apply Z.pow_pos_nonneg; lia).
  assert (0 < den) as Hden by (unfold den; lia).
  destruct (round_half_even_bounds num den Hden) as [[_ Hup] Hexact].
  set (m := round_half_even num den) in *.
  assert (0 < j) as Hjpos by nia.
  unfold Qle. cbn [Qnum Qden]. rewrite !Z2Pos.id by done.
  destruct (Z.le_gt_cases e (- p)) as [Hlow_e|Hhigh_e].
  - assert (u = 0) as Hu0 by (unfold u; lia).
    assert (v = p + (v - p)) as Hsplit by lia.
    assert (0 ≤ v - p) as Hvp by (unfold v; lia).
    assert (0 < 2 ^ (v - p)) as Hpvp by (by apply Z.pow_pos_nonneg).
    assert (den = d) as Hdd by (unfold den; rewrite Hu0, Z.pow_0_r; lia).
    assert (num ≤ j * 2 ^ (v - p) * d) as Hnum.
    { unfold num. rewrite Hsplit at 1. rewrite Z.pow_add_r by lia. nia. }
    assert (m ≤ j * 2 ^ (v - p)) as Hm.
    { destruct (Z.lt_ge_cases (num / den) (j * 2 ^ (v - p))) as [Hlt|Hge]; [lia|].
      assert (num / den ≤ j * 2 ^ (v - p)) as Hq.
      { rewrite Hdd. apply Z.div_le_upper_bound; [done|]. lia. }
      assert (num mod den = 0) as Hr.
      { pose proof (Z.div_mod num den ltac:(lia)) as Hdm.
        pose proof (Z.mod_pos_bound num den Hden) as Hmod.
        rewrite Hdd in *. nia. }
      rewrite (Hexact Hr). lia. }
    rewrite Hu0, Z.pow_0_r, Z.mul_1_r. rewrite Hsplit at 1.
    rewrite Z.pow_add_r by lia. nia.
  - exfalso.
    pose proof (exponent_normal n d Hn Hd) as Hnormal. fold e u v num den in Hnormal.
    assert (2 ^ 52 * den ≤ num) as H52 by (apply Hnormal; lia).
    assert (2 ^ 53 * 2 ^ v ≤ 2 ^ 52 * (2 ^ u * 2 ^ p)) as Hpow.
    { rewrite <- !Z.pow_add_r by (unfold u, v; lia).
      apply Z.pow_le_mono_r; unfold u, v; lia. }
    assert (0 < 2 ^ 52) by done.
    unfold num, den in H52.
    assert (2 ^ 52 * (2 ^ u * 2 ^ p) * d ≤ j * 2 ^ v * d) by nia.
    assert (j * 2 ^ v * d < 2 ^ 53 * 2 ^ v * d) by nia.
    nia.
Qed.

(** Numbers up to [2^64] are far from the largest float. *)
Lemma round_pos_some (n d : Z) :
  0 < n → 0 < d → n ≤ d * 2 ^ 64 → ∃ y, round_pos n d = Some y.
Proof.
  intros Hn Hd Hle. unfold round_pos. cbv zeta.
  set (e := exponent n d).
  destruct (Z.leb_spec 0 e) as [He|He]; cbn [andb]; [|by eexists].
  destruct (Z.leb_spec (2 ^ 1024) (round_half_even (n * 2 ^ Z.max 0 (- e))
                                     (d * 2 ^ Z.max 0 e) * 2 ^ e)) as [Hover|Hfits];
    [|by eexists].
  exfalso.
  replace (Z.max 0 (- e)) with 0 in Hover by lia.
  replace (Z.max 0 e) with e in Hover by lia.
  rewrite Z.pow_0_r, Z.mul_1_r in Hover.
  assert (0 < 2 ^ e) as Hpe by (by apply Z.pow_pos_nonneg).
  assert (0 < d * 2 ^ e) as Hden by lia.
  destruct (round_half_even_bounds n (d * 2 ^ e) Hden) as [[_ Hup] _].
  set (m := round_half_even n (d * 2 ^ e)) in *.
  assert (n / (d * 2 ^ e) * 2 ^ e ≤ 2 ^ 64) as Hq.
  { pose proof (Z.mul_div_le n (d * 2 ^ e) Hden) as Hmul.
    assert (d * (n / (d * 2 ^ e) * 2 ^ e) ≤ d * 2 ^ 64) by nia.
    by apply (Z.mul_le_mono_pos_l _ _ d). }
  assert (2 ^ e ≤ 2 ^ 64) as Hpow.
  { destruct (Z.eq_dec e 0) as [->|Hne]; [done|].
    pose proof (exponent_normal n d Hn Hd) as Hnormal. fold e in Hnormal.
    replace (Z.max 0 (- e)) with 0 in Hnormal by lia.
    replace (Z.max 0 e) with e in Hnormal by lia.
    rewrite Z.pow_0_r, Z.mul_1_r in Hnormal.
    assert (2 ^ 52 ≤ n / (d * 2 ^ e)) as Hq52.
    { apply Z.div_le_lower_bound; [done|]. rewrite Z.mul_comm. apply Hnormal. lia. }
    assert (0 < 2 ^ 52) by done. nia. }
  assert (m * 2 ^ e ≤ 2 ^ 64 + 2 ^ 64) by nia.
  assert (2 ^ 64 + 2 ^ 64 < 2 ^ 1024) by done.
  lia.
Qed.

Lemma round_pos_nonneg (n d : Z) (y : Q) :
  0 < n → 0 < d → round_pos n d = Some y → (0 <= y)%Q.
Proof.
  intros Hn Hd Hy.
  apply (round_pos_ge n d y 0 0 Hn Hd Hy); [lia | done | lia].
Qed.

Lemma round64_ge (x y : Q) (j p : Z) :
  round64 x = Some y →
  0 ≤ p ≤ 1074 → - 2 ^ 53 < j < 2 ^ 53 →
  (j # Z.to_pos (2 ^ p) <= x)%Q → (j # Z.to_pos (2 ^ p) <= y)%Q.
Proof.
  intros Hy Hp Hj Hle.
  assert (0 < 2 ^ p) as Hpp by (apply Z.pow_pos_nonneg; lia).
  destruct x as [[|n|n] d]; unfold round64 in Hy; cbn [Qnum Qden] in Hy.
  - injection Hy as <-. unfold Qle in Hle |- *. cbn [Qnum Qden] in Hle |- *. nia.
  - apply (round_pos_ge (Z.pos n) (Z.pos d)); try done; [lia|].
    unfold Qle in Hle. cbn [Qnum Qden] in Hle. rewrite Z2Pos.id in Hle by done. lia.
  - destruct (round_pos (Z.pos n) (Z.pos d)) as [y'|] eqn:Hy'; [|done].
    injection Hy as <-.
    unfold Qle in Hle. cbn [Qnum Qden] in Hle. rewrite Z2Pos.id in Hle by done.
    pose proof (round_pos_le (Z.pos n) (Z.pos d) y' (- j) p) as Hup.
    unfold Qle in Hup |- *. cbn [Qnum Qden Qopp] in Hup |- *.
    rewrite Z2Pos.id in Hup |- * by done.
    specialize (Hup ltac:(done) ltac:(done) Hy' Hp ltac:(lia) ltac:(lia)). lia.
Qed.

Lemma round64_le (x y : Q) (j p : Z) :
  round64 x = Some y →
  0 ≤ p ≤ 1074 → - 2 ^ 53 < j < 2 ^ 53 →
  (x <= j # Z.to_pos (2 ^ p))%Q → (y <= j # Z.to_pos (2 ^ p))%Q.
Proof.
  intros Hy Hp Hj Hle.
  assert (0 < 2 ^ p) as Hpp by (apply Z.pow_pos_nonneg; lia).
  destruct x as [[|n|n] d]; unfold round64 in Hy; cbn [Qnum Qden] in Hy.
  - injection Hy as <-. unfold Qle in Hle |- *. cbn [Qnum Qden] in Hle |- *. nia.
  - apply (round_pos_le (Z.pos n) (Z.pos d)); try done; [lia|].
    unfold Qle in Hle. cbn [Qnum Qden] in Hle. rewrite Z2Pos.id in Hle by done. lia.
  - destruct (round_pos (Z.pos n) (Z.pos d)) as [y'|] eqn:Hy'; [|done].
    injection Hy as <-.
    unfold Qle in Hle. cbn [Qnum Qden] in Hle. rewrite Z2Pos.id in Hle by done.
    destruct (Z.le_gt_cases 0 j) as [Hpos|Hneg].
    + pose proof (round_pos_nonneg (Z.pos n) (Z.pos d) y' ltac:(done) ltac:(done) Hy') as Hnn.
      unfold Qle in Hnn |- *. cbn [Qnum Qden Qopp] in Hnn |- *.
      rewrite Z2Pos.id by done. nia.
    + pose proof (round_pos_ge (Z.pos n) (Z.pos d) y' (- j) p) as Hlow.
      unfold Qle in Hlow |- *. cbn [Qnum Qden Qopp] in Hlow |- *.
      rewrite Z2Pos.id in Hlow |- * by done.
      specialize (Hlow ltac:(done) ltac:(done) Hy' Hp ltac:(lia) ltac:(lia)). lia.
Qed.

Lemma round64_some (x : Q) :
  (inject_Z (- 2 ^ 64) <= x)%Q → (x <= inject_Z (2 ^ 64))%Q → ∃ y, round64 x = Some y.
Proof.
  intros Hlow Hup. unfold Qle in Hlow, Hup. cbn [Qnum Qden inject_Z] in Hlow, Hup.
  destruct x as [[|n|n] d]; unfold round64; cbn [Qnum Qden] in *.
  - by eexists.
  - apply round_pos_some; lia.
  - destruct (round_pos_some (Z.pos n) (Z.pos d)) as [y ->]; [done|done|lia|].
    by eexists.
Qed.

Lemma round64_ge_int (x y : Q) (k : Z) :
  round64 x = Some y → - 2 ^ 53 < k < 2 ^ 53 →
  (inject_Z k <= x)%Q → (inject_Z k <= y)%Q.
Proof. intros Hy Hk. by apply (round64_ge x y k 0). Qed.

Lemma round64_le_int (x y : Q) (k : Z) :
  round64 x = Some y → - 2 ^ 53 < k < 2 ^ 53 →
  (x <= inject_Z k)%Q → (y <= inject_Z k)%Q.
Proof. intros Hy Hk. by apply (round64_le x y k 0). Qed.

(** *** Quotients and whole parts *)

Lemma Qdiv_int (n : Z) (d : positive) :
  (inject_Z n / inject_Z (Z.pos d) == n # d)%Q.
Proof. unfold Qeq, Qdiv, Qmult, Qinv, inject_Z. cbn. lia. Qed.

Lemma Qle_int_div (k n : Z) (d : positive) :
  k * Z.pos d ≤ n → (inject_Z k <= inject_Z n / inject_Z (Z.pos d))%Q.
Proof. intros Hle. rewrite Qdiv_int. unfold Qle. cbn. lia. Qed.

Lemma Qdiv_le_int (k n : Z) (d : positive) :
  n ≤ k * Z.pos d → (inject_Z n / inject_Z (Z.pos d) <= inject_Z k)%Q.
Proof. intros Hle. rewrite Qdiv_int. unfold Qle. cbn. lia. Qed.

Lemma Qle_div_int (k : Z) (x : Q) (d : positive) :
  (inject_Z (k * Z.pos d) <= x)%Q → (inject_Z k <= x / inject_Z (Z.pos d))%Q.
Proof.
  intros Hle. apply Qle_shift_div_l; [done|]. by rewrite <- inject_Z_mult.
Qed.

Lemma Qdiv_int_le (k : Z) (x : Q) (d : positive) :
  (x <= inject_Z (k * Z.pos d))%Q → (x / inject_Z (Z.pos d) <= inject_Z k)%Q.
Proof.
  intros Hle. apply Qle_shift_div_r; [done|]. by rewrite <- inject_Z_mult.
Qed.

(** On a number that is not negative, [truncate] is the floor. *)
Lemma truncate_le (x : Q) : (0 <= x)%Q → (inject_Z (truncate x) <= x)%Q.
Proof.
  destruct x as [n d]. unfold Qle, truncate, inject_Z. cbn [Qnum Qden].
  intros Hpos. rewrite Z.quot_div_nonneg by lia.
  pose proof (Z.mul_div_le n (Z.pos d) ltac:(done)). lia.
Qed.

Lemma truncate_ge (x : Q) (k : Z) :
  (0 <= x)%Q → (inject_Z k <= x)%Q → k ≤ truncate x.
Proof.
  destruct x as [n d]. unfold Qle, truncate, inject_Z. cbn [Qnum Qden].
  intros Hpos Hle. rewrite Z.quot_div_nonneg by lia.
  apply Z.div_le_lower_bound; lia.
Qed.

(** *** The runtime at work *)

Example int_reads :
  int "24" = Ok 24 ∧ int " +2_4 " = Ok 24 ∧ int "-007" = Ok (-7) ∧
  int (String (Ascii.ascii_of_nat 160) "24") = Ok 24.
Proof. by vm_compute. Qed.

(** A separator is no white space for [int], an underscore stands
    between two digits only, and the text of the error is the [repr] of
    the string. *)
Example int_refuses :
  int (String (Ascii.ascii_of_nat 28) "24") =
    Raise (ValueError "invalid literal for int() with base 10: '\x1c24'") ∧
  int "24_" = Raise (ValueError "invalid literal for int() with base 10: '24_'") ∧
  int "a\b" = Raise (ValueError "invalid literal for int() with base 10: 'a\\b'") ∧
  int "it's" =
    Raise (ValueError
             ("invalid literal for int() with base 10: " +:+
              String double_quote ("it's" +:+ String double_quote EmptyString))).
Proof. by vm_compute. Qed.

Example int_digit_limit :
  (∃ n, int (String.concat EmptyString (replicate 4300 "1")) = Ok n) ∧
  int (String.concat EmptyString (replicate 4301 "1")) =
    Raise (ValueError
             ("Exceeds the limit (4300 digits) for integer string conversion: " +:+
              "value has 4301 digits; use sys.set_int_max_str_digits() " +:+
              "to increase the limit")).
Proof. split; [eexists|]; vm_compute; reflexivity. Qed.

(** The float [0.1], and two quotients of integers that round up to a
    whole number. *)
Example round64_tenth :
  round64 (1 # 10) = Some (3602879701896397 # 36028797018963968)%Q.
Proof. by vm_compute. Qed.

Example truediv_rounds :
  truediv (5000000 * 3600 * 10 ^ 6 - 1) (10 ^ 6) = Ok (Finite (inject_Z 18000000000)) ∧
  truediv 8589934582999999 (10 ^ 6) =
    Ok (Finite (9007199245303807 # 1048576)).
Proof. by vm_compute. Qed.

End RuntimeProperties.

(** ** Properties of the authorizer *)
Section AuthorizerProperties.
Import Py Authorizer.

Lemma authorize_request headers rest :
  authorize (request headers rest) =
  let api_key :=
    match headers !! "x-api-key" with
    | Some v => if String.eqb v "" then default PNone (PStr <$> headers !! "X-API-Key")
                else PStr v
    | None => default PNone (PStr <$> headers !! "X-API-Key")
    end in
  let ok := match api_key with
            | PStr v => 0 <? Z.of_nat (String.length v)
            | _ => false
            end in
  Ok (PDict {[ "isAuthorized" := PBool ok;
               "context" := PDict {[ "apiKey" :=
                  if ok then api_key else PStr "invalid" ]} ]}).
Proof.
  unfold authorize, validate, request, get; cbn [rbind].
  rewrite lookup_insert_eq; cbn [default rbind id].
  rewrite !lookup_fmap.
  destruct (headers !! "x-api-key") as [v|] eqn:Hv; cbn.
  - unfold por; cbn. destruct (String.eqb v ""); cbn; [|done].
    destruct (headers !! "X-API-Key"); cbn; done.
  - unfold por; cbn. destruct (headers !! "X-API-Key"); cbn; done.
Qed.

Lemma length_pos_nonempty (v : string) :
  (0 <? Z.of_nat (String.length v)) = true ↔ v ≠ "".
Proof.
  rewrite Z.ltb_lt. destruct v; cbn [String.length]; split; intros H; try done; lia.
Qed.

(** C8 (as amended): on a request whose header values are strings, the
    handler authorizes exactly when one of the two spellings it looks up,
    [x-api-key] or [X-API-Key], carries a non-empty value. *)
Theorem authorizer_two_spellings (headers : gmap string string) (rest : gmap string pyval) :
  is_authorized (lambda_handler (request headers rest)) = Some true ↔
  ∃ v, v ≠ "" ∧ (headers !! "x-api-key" = Some v ∨ headers !! "X-API-Key" = Some v).
Proof.
  unfold lambda_handler. rewrite authorize_request. cbv zeta.
  unfold is_authorized. rewrite lookup_insert_eq.
  destruct (headers !! "x-api-key") as [v|] eqn:Hv.
  - destruct (String.eqb_spec v "") as [->|Hne].
    + destruct (headers !! "X-API-Key") as [u|] eqn:Hu; cbn [default fmap option_fmap option_map].
      * split.
        -- intros [= H%length_pos_nonempty]. exists u. by auto.
        -- intros (w & Hw & [[= <-]|[= <-]]); [done|].
           f_equal. by apply length_pos_nonempty.
      * split; [done|]. by intros (w & Hw & [[= <-]|[=]]).
    + split.
      * intros _. exists v. by auto.
      * intros _. f_equal. by apply length_pos_nonempty.
  - destruct (headers !! "X-API-Key") as [u|] eqn:Hu; cbn [default fmap option_fmap option_map].
    + split.
      * intros [= H%length_pos_nonempty]. exists u. by auto.
      * intros (w & Hw & [[=]|[= <-]]). f_equal. by apply length_pos_nonempty.
    + split; [done|]. by intros (w & Hw & [[=]|[=]]).
Qed.

(** C8 (as stated) fails: the spelling [X-Api-Key] is a case-insensitive
    match with a non-empty value, and the handler answers
    [isAuthorized = False]. *)
Lemma authorizer_mixed_case_rejected :
  has_api_key_ci {[ "X-Api-Key" := "secret" ]} ∧
  is_authorized (lambda_handler (request {[ "X-Api-Key" := "secret" ]} ∅)) = Some false.
Proof.
  split.
  - exists "X-Api-Key", "secret". by vm_compute.
  - by vm_compute.
Qed.

(** C10: the handler is total and fail-closed. Whatever the event, the
    response is a dict holding a boolean [isAuthorized] and a dict
    [context], and when the body of the [try] raises, [isAuthorized] is
    [False]. *)
Theorem authorizer_total_fail_closed (event : pyval) :
  ∃ (b : bool) (ctx : gmap string pyval),
    lambda_handler event =
      PDict {[ "isAuthorized" := PBool b; "context" := PDict ctx ]} ∧
    (∀ e, authorize event = Raise e → b = false).
Proof.
  unfold lambda_handler.
  destruct (authorize event) as [response|e] eqn:Hbody.
  - unfold authorize in Hbody.
    destruct (get event "headers" (PDict ∅)) as [headers|]; [|done].
    cbn [rbind] in Hbody.
    destruct (rbind (get headers "x-api-key" PNone) _) as [api_key|]; [|done].
    cbn [rbind] in Hbody.
    destruct (validate api_key) as [ok|]; [|done].
    cbn [rbind] in Hbody. injection Hbody as <-.
    eexists _, _. by split.
  - eexists _, _. by split.
Qed.

(** Events without a [headers] entry, with a null one, or that are not
    even a dict all end in a refusal. *)
Example authorizer_no_headers :
  is_authorized (lambda_handler (PDict ∅)) = Some false.
Proof. by vm_compute. Qed.

Example authorizer_null_headers :
  authorize (PDict {[ "headers" := PNone ]}) =
    Raise (AttributeError "'NoneType' object has no attribute 'get'") ∧
  is_authorized (lambda_handler (PDict {[ "headers" := PNone ]})) = Some false.
Proof. by vm_compute. Qed.

Example authorizer_numeric_key :
  authorize (PDict {[ "headers" := PDict {[ "x-api-key" := PInt 5 ]} ]}) =
    Raise (TypeError "object of type 'int' has no len()").
Proof. by vm_compute. Qed.

End AuthorizerProperties.

(** ** Properties of the cleanup script *)
Section CleanupProperties.
Import Py EphemeralCleanup.
Context {W : Type} `{World W}.

Implicit Types (m : Mem W) (w : W) (names : list string).

(** *** How the pieces run *)

Lemma call_eq {A} (op : W → result A * W) m :
  call op m = Some ((op (world m)).1, set_world (op (world m)).2 m).
Proof. unfold call. by destruct (op (world m)). Qed.

(** The next statement is a call into the world, and [H] tells its answer. *)
Ltac enter H :=
  unfold bind at 1; rewrite call_eq; cbn [world set_world]; rewrite H; cbn [fst snd].

Lemma add_outcomes_nil (r : CleanupResults) : add_outcomes [] r = r.
Proof. destruct r. unfold add_outcomes; cbn. by rewrite app_nil_r. Qed.

Lemma add_outcomes_app (os os' : list Outcome) (r : CleanupResults) :
  add_outcomes os' (add_outcomes os r) = add_outcomes (os ++ os') r.
Proof. unfold add_outcomes; cbn. by rewrite app_assoc. Qed.

(** One turn of a sweeper's loop: the deletion, then one entry. *)
Lemma attempt_eq (type : string) (del : string → W → result unit * W) name m :
  try_except
    (let* _ := call (del name) in append (deleted type name))
    (fun e => append (failed type name e)) m =
  Some (Ok tt,
        {| world := (del name (world m)).2;
           results := add_outcomes [attempt type name (del name (world m)).1] (results m) |}).
Proof.
  unfold try_except, bind. rewrite call_eq.
  by destruct (del name (world m)) as [[[]|e] w'].
Qed.

(** The whole loop of a sweeper, for any body that behaves as one attempt
    per name. *)
Lemma for_each_attempts (type : string) (del : string → W → result unit * W)
    (body : string → M (Mem W) unit) :
  (∀ name m, body name m =
     Some (Ok tt,
           {| world := (del name (world m)).2;
              results := add_outcomes [attempt type name (del name (world m)).1]
                           (results m) |})) →
  ∀ names m,
    for_each names body m =
    Some (Ok tt,
          {| world := (run_deletes del names (world m)).2;
             results := add_outcomes
                          (zip_with (attempt type) names (run_deletes del names (world m)).1)
                          (results m) |}).
Proof.
  intros Hbody. induction names as [|name names IH]; intros m.
  - cbn. rewrite add_outcomes_nil. by destruct m.
  - cbn [for_each]. unfold bind at 1. rewrite Hbody, IH. cbn [world results run_deletes].
    destruct (del name (world m)) as [r w1]. cbn [fst snd].
    destruct (run_deletes del names w1) as [rs w2]. cbn [fst snd zip_with].
    by rewrite add_outcomes_app.
Qed.

Lemma run_deletes_length (del : string → W → result unit * W) names w :
  length (run_deletes del names w).1 = length names.
Proof.
  revert w. induction names as [|name names IH]; intros w; [done|].
  cbn. destruct (del name w) as [r w1]. specialize (IH w1).
  destruct (run_deletes del names w1). cbn in *. by rewrite IH.
Qed.

(** The entries of a run carry the names tried, in the order tried. *)
Lemma attempts_names (type : string) names (rs : list (result unit)) :
  length rs = length names →
  res_name <$> zip_with (attempt type) names rs = names.
Proof.
  revert rs. induction names as [|name names IH]; intros [|r rs] Hlen; try done.
  cbn. f_equal; [by destruct r | apply IH; by injection Hlen].
Qed.

Lemma attempts_length (type : string) names (rs : list (result unit)) :
  length rs = length names →
  length (zip_with (attempt type) names rs) = length names.
Proof. intros Hlen. rewrite length_zip_with. lia. Qed.

(** The entries say [error] where the deletion failed, [deleted] elsewhere. *)
Lemma attempts_errors (type : string) names (rs : list (result unit)) :
  length rs = length names →
  length (List.filter (has_status "error") (zip_with (attempt type) names rs)) =
    length (List.filter is_failure rs) ∧
  length (List.filter (has_status "deleted") (zip_with (attempt type) names rs)) =
    (length names - length (List.filter is_failure rs))%nat.
Proof.
  revert rs. induction names as [|name names IH]; intros [|r rs] Hlen; try done.
  injection Hlen as Hlen. destruct (IH rs Hlen) as [IHe IHd].
  assert (length (List.filter is_failure rs) ≤ length names)%nat.
  { rewrite <- Hlen. apply List.filter_length_le. }
  destruct r as [[]|e]; cbn; rewrite ?IHe, ?IHd; split; lia.
Qed.

(** *** The strings matched *)

Lemma startswith_spec (name prefix : string) :
  startswith name prefix = true ↔ ∃ rest, name = prefix +:+ rest.
Proof.
  revert name. induction prefix as [|c p IH]; intros name.
  - split; [intros _; by exists name | done].
  - destruct name as [|d n]; cbn.
    + split; [done | by intros [rest [=]]].
    + rewrite andb_true_iff, IH. split.
      * intros [Hc%Ascii.eqb_eq [rest ->]]. subst. by exists rest.
      * intros [rest [= -> ->]]. split; [apply Ascii.eqb_refl | by exists rest].
Qed.

Lemma contains_spec (sub name : string) :
  contains sub name = true ↔ ∃ before after, name = before +:+ sub +:+ after.
Proof.
  induction name as [|d n IH]; cbn [contains]; rewrite orb_true_iff, startswith_spec.
  - split.
    + intros [[after ->]|[=]]. by exists "", after.
    + intros ([|? before] & after & Heq); cbn in Heq; [left; by exists after | done].
  - rewrite IH. split.
    + intros [[after ->]|(before & after & ->)].
      * by exists "", after.
      * by exists (String d before), after.
    + intros ([|c before] & after & Heq); cbn in Heq.
      * left. by exists after.
      * right. injection Heq as -> ->. by exists before, after.
Qed.

(** The two filters, read as statements about the names. *)
Lemma swept_spec (environment_prefix : string) names (name : string) :
  name ∈ swept environment_prefix names ↔
  name ∈ names ∧ ∃ rest, name = environment_prefix +:+ rest.
Proof.
  unfold swept. rewrite !list_elem_of_In, List.filter_In.
  by rewrite startswith_spec.
Qed.

Lemma log_matches_spec (environment_prefix : string) names (name : string) :
  name ∈ log_matches environment_prefix names ↔
  name ∈ names ∧ ∃ before after, name = before +:+ environment_prefix +:+ after.
Proof.
  unfold log_matches. rewrite !list_elem_of_In, List.filter_In.
  by rewrite contains_spec.
Qed.

Lemma swept_none (environment_prefix : string) names :
  (∀ name, name ∈ names → ¬ ∃ rest, name = environment_prefix +:+ rest) →
  swept environment_prefix names = [].
Proof.
  intros Hnone. destruct (swept environment_prefix names) as [|name rest] eqn:Hswept; [done|].
  assert (name ∈ swept environment_prefix names) as Hin by (rewrite Hswept; left).
  apply swept_spec in Hin as [Hin Hstart]. by destruct (Hnone name Hin).
Qed.

Lemma log_matches_none (environment_prefix : string) names :
  (∀ name, name ∈ names →
     ¬ ∃ before after, name = before +:+ environment_prefix +:+ after) →
  log_matches environment_prefix names = [].
Proof.
  intros Hnone.
  destruct (log_matches environment_prefix names) as [|name rest] eqn:Hmatches; [done|].
  assert (name ∈ log_matches environment_prefix names) as Hin by (rewrite Hmatches; left).
  apply log_matches_spec in Hin as [Hin Hholds]. by destruct (Hnone name Hin).
Qed.


(** *** The sweepers, as one equation each *)

Lemma delete_all_objects_eq (bucket_name : string) m :
  delete_all_objects bucket_name m =
  Some (Ok tt, set_world (empty_bucket bucket_name (world m)) m).
Proof.
  unfold delete_all_objects, try_except, bind, empty_bucket. rewrite call_eq.
  destruct (list_objects_v2 bucket_name (world m)) as [[[keys|]|e] w1]; cbn; try done.
  rewrite call_eq; cbn.
  by destruct (delete_objects bucket_name keys w1) as [[[]|e] w2].
Qed.

Lemma sweeper_eq (k : Kind) (environment_prefix : string) m w1 names w2 :
  client (service k) (world m) = (Ok tt, w1) →
  listing k w1 = (Ok names, w2) →
  sweeper k environment_prefix m =
  let matches := swept environment_prefix names in
  Some (Ok tt,
        {| world := (run_deletes (deletion k) matches w2).2;
           results := add_outcomes
                        (zip_with (attempt (type_of k)) matches
                           (run_deletes (deletion k) matches w2).1)
                        (results m) |}).
Proof.
  intros Hclient Hlist. cbv zeta.
  destruct k; cbn [sweeper service listing deletion type_of] in *.
  - unfold cleanup_dynamodb_tables. enter Hclient. unfold try_except at 1. enter Hlist.
    rewrite (for_each_attempts "dynamodb_table" delete_table); [done|].
    intros name m0. apply attempt_eq.
  - unfold cleanup_s3_buckets. enter Hclient. unfold try_except at 1. enter Hlist.
    rewrite (for_each_attempts "s3_bucket" remove_bucket); [done|].
    intros name m0. unfold try_except, bind at 1. rewrite delete_all_objects_eq.
    unfold bind. rewrite call_eq. cbn [world set_world]. unfold remove_bucket.
    by destruct (delete_bucket name (empty_bucket name (world m0))) as [[[]|e] w'].
  - unfold cleanup_eventbridge_buses. enter Hclient. unfold try_except at 1. enter Hlist.
    rewrite (for_each_attempts "eventbridge_bus" delete_event_bus); [done|].
    intros name m0. apply attempt_eq.
Qed.

Lemma attempts_status (type : string) names (rs : list (result unit)) :
  length rs = length names →
  Forall2 (fun o r =>
             res_type o = type ∧
             match r with
             | Ok _ => res_status o = "deleted" ∧ res_error o = None
             | Raise e => res_status o = "error" ∧ res_error o = Some (str_exn e)
             end)
          (zip_with (attempt type) names rs) rs.
Proof.
  revert rs. induction names as [|name names IH]; intros [|r rs] Hlen; try done.
  cbn. constructor; [by destruct r as [[]|e] | apply IH; by injection Hlen].
Qed.

(** C3: one pass of a sweeper over the [N] names it matched. Every
    deletion is tried, in the order of the listing, and leaves exactly one
    entry: [deleted] when the call returned, [error] with the text of the
    exception when it raised. A failure stops nothing: with one failing
    deletion there are [N] entries, one [error] and [N-1] [deleted]. *)
Theorem sweeper_one_outcome_per_attempt (k : Kind) (environment_prefix : string)
    m w1 names w2 :
  client (service k) (world m) = (Ok tt, w1) →
  listing k w1 = (Ok names, w2) →
  let matches := swept environment_prefix names in
  let answers := (run_deletes (deletion k) matches w2).1 in
  ∃ m' outcomes,
    sweeper k environment_prefix m = Some (Ok tt, m') ∧
    resources_cleaned (results m') = resources_cleaned (results m) ++ outcomes ∧
    length outcomes = length matches ∧
    res_name <$> outcomes = matches ∧
    Forall2 (fun o r =>
               res_type o = type_of k ∧
               match r with
               | Ok _ => res_status o = "deleted" ∧ res_error o = None
               | Raise e => res_status o = "error" ∧ res_error o = Some (str_exn e)
               end) outcomes answers ∧
    (length (List.filter is_failure answers) = 1%nat →
     length (List.filter (has_status "error") outcomes) = 1%nat ∧
     length (List.filter (has_status "deleted") outcomes) = (length matches - 1)%nat).
Proof.
  intros Hclient Hlist matches answers.
  pose proof (run_deletes_length (deletion k) matches w2) as Hlen.
  eexists _, (zip_with (attempt (type_of k)) matches answers).
  split; [by apply (sweeper_eq k environment_prefix m w1 names w2)|].
  split; [done|].
  split; [by apply attempts_length|].
  split; [by apply attempts_names|].
  split; [by apply attempts_status|].
  intros Hone. destruct (attempts_errors (type_of k) matches answers Hlen) as [He Hd].
  rewrite He, Hd. by rewrite Hone.
Qed.

(** *** The log sweeper *)

Lemma for_page_eq (environment_prefix : string) (pages : list (list string)) :
  ∀ fuel token m,
    paginator_yields environment_prefix token pages (world m) →
    (length pages ≤ fuel)%nat →
    ∃ m' outcomes,
      for_page fuel token (fun log_groups =>
        for_each (List.filter (fun lg => contains environment_prefix lg) log_groups)
          (fun log_group_name =>
          try_except
            (let* _ := call (delete_log_group log_group_name) in
             append (deleted "cloudwatch_log_group" log_group_name))
            (fun e => append (failed "cloudwatch_log_group" log_group_name e)))) m =
        Some (Ok tt, m') ∧
      results m' = add_outcomes outcomes (results m) ∧
      res_name <$> outcomes = log_matches environment_prefix (concat pages).
Proof.
  induction pages as [|page rest IH]; intros fuel token m Hyields Hfuel; [done|].
  destruct fuel as [|fuel]; [cbn in Hfuel; lia|].
  destruct Hyields as (next & w1 & Hpage & Hrest).
  cbn [for_page]. unfold bind at 1. rewrite call_eq, Hpage. cbn [fst snd].
  unfold bind at 1. cbv zeta.
  rewrite (for_each_attempts "cloudwatch_log_group" delete_log_group)
    by (intros; apply attempt_eq).
  cbn [world set_world results].
  fold (log_matches environment_prefix page).
  set (names := log_matches environment_prefix page) in *.
  set (run := run_deletes delete_log_group names w1) in *.
  assert (res_name <$> zip_with (attempt "cloudwatch_log_group") names run.1 = names)
    as Hnames by (apply attempts_names, run_deletes_length).
  destruct rest as [|page' rest].
  - subst next. eexists _, _. split; [done|]. split; [done|].
    cbn [concat]. by rewrite app_nil_r.
  - destruct Hrest as (t & -> & Hrest).
    destruct (IH fuel (Some t)
                {| world := run.2;
                   results := add_outcomes
                     (zip_with (attempt "cloudwatch_log_group") names run.1)
                     (results m) |}) as (m' & outcomes & Hrun & Hres & Hout).
    { done. }
    { cbn in Hfuel |- *. lia. }
    eexists m', _. split; [exact Hrun|]. split.
    + rewrite Hres. cbn [results]. by rewrite add_outcomes_app.
    + rewrite fmap_app, Hnames, Hout.
      change (concat (page :: page' :: rest)) with (page ++ concat (page' :: rest)).
      unfold log_matches, names, log_matches. by rewrite List.filter_app.
Qed.

Lemma names_start (environment_prefix : string) (os : list Outcome) names :
  res_name <$> os = swept environment_prefix names →
  Forall (fun o => ∃ rest, res_name o = environment_prefix +:+ rest) os.
Proof.
  intros Heq. apply Forall_forall. intros o Ho.
  apply startswith_spec.
  assert (res_name o ∈ swept environment_prefix names) as Hin.
  { rewrite <- Heq. by apply list_elem_of_fmap_2. }
  apply list_elem_of_In, List.filter_In in Hin. by destruct Hin.
Qed.

Lemma names_contain (environment_prefix : string) (os : list Outcome) names :
  res_name <$> os = log_matches environment_prefix names →
  Forall (fun o => ∃ before after, res_name o = before +:+ environment_prefix +:+ after) os.
Proof.
  intros Heq. apply Forall_forall. intros o Ho.
  apply contains_spec.
  assert (res_name o ∈ log_matches environment_prefix names) as Hin.
  { rewrite <- Heq. by apply list_elem_of_fmap_2. }
  apply list_elem_of_In, List.filter_In in Hin. by destruct Hin.
Qed.

(** The entries of a list of names stand for those names, one by one. *)
Lemma names_entries (os : list Outcome) names (name : string) :
  res_name <$> os = names →
  name ∈ names ↔ ∃ o, o ∈ os ∧ res_name o = name.
Proof.
  intros <-. rewrite list_elem_of_fmap. split; intros (o & H1 & H2); by exists o.
Qed.

(** C4: which names a sweeper acts on. The table, bucket and event-bus
    sweepers leave an entry for a name only if it is in the listing and
    starts with the prefix, and they leave one for every listed name that
    does, in the order of the listing. The log-group sweeper does the same
    over the names of all the pages, for the names that hold the prefix
    anywhere; enough fuel for the pages makes it finish. *)
Theorem sweepers_select_by_name (environment_prefix : string) :
  (∀ (k : Kind) m w1 names w2,
     client (service k) (world m) = (Ok tt, w1) →
     listing k w1 = (Ok names, w2) →
     ∃ m' outcomes,
       sweeper k environment_prefix m = Some (Ok tt, m') ∧
       resources_cleaned (results m') = resources_cleaned (results m) ++ outcomes ∧
       (∀ o, o ∈ outcomes →
          res_name o ∈ names ∧ ∃ rest, res_name o = environment_prefix +:+ rest) ∧
       (∀ name, name ∈ names → (∃ rest, name = environment_prefix +:+ rest) →
          ∃ o, o ∈ outcomes ∧ res_name o = name) ∧
       res_name <$> outcomes =
         List.filter (fun name => startswith name environment_prefix) names) ∧
  (∀ (fuel : nat) m w1 (pages : list (list string)),
     client "logs" (world m) = (Ok tt, w1) →
     paginator_yields environment_prefix None pages w1 →
     (length pages ≤ fuel)%nat →
     ∃ m' outcomes,
       cleanup_cloudwatch_logs fuel environment_prefix m = Some (Ok tt, m') ∧
       resources_cleaned (results m') = resources_cleaned (results m) ++ outcomes ∧
       (∀ o, o ∈ outcomes →
          res_name o ∈ concat pages ∧
          ∃ before after, res_name o = before +:+ environment_prefix +:+ after) ∧
       (∀ page name, page ∈ pages → name ∈ page →
          (∃ before after, name = before +:+ environment_prefix +:+ after) →
          ∃ o, o ∈ outcomes ∧ res_name o = name) ∧
       res_name <$> outcomes =
         List.filter (fun name => contains environment_prefix name) (concat pages)).
Proof.
  split.
  - intros k m w1 names w2 Hclient Hlist.
    pose proof (run_deletes_length (deletion k) (swept environment_prefix names) w2) as Hlen.
    eexists _, _.
    split; [by apply (sweeper_eq k environment_prefix m w1 names w2)|].
    split; [done|].
    assert (res_name <$>
              zip_with (attempt (type_of k)) (swept environment_prefix names)
                (run_deletes (deletion k) (swept environment_prefix names) w2).1 =
            swept environment_prefix names) as Hnames by by apply attempts_names.
    split; [|split; [|exact Hnames]].
    + intros o Ho. apply swept_spec, (names_entries _ _ _ Hnames). by exists o.
    + intros name Hin Hstart. apply (names_entries _ _ _ Hnames), swept_spec. by split.
  - intros fuel m w1 pages Hclient Hyields Hfuel.
    destruct (for_page_eq environment_prefix pages fuel None (set_world w1 m))
      as (m' & outcomes & Hrun & Hres & Hout); [done..|].
    exists m', outcomes.
    split.
    { unfold cleanup_cloudwatch_logs, bind at 1. rewrite call_eq, Hclient. cbn [fst snd].
      unfold try_except at 1. cbv zeta. by rewrite Hrun. }
    rewrite Hres. split; [done|]. split; [|split; [|exact Hout]].
    + intros o Ho. apply log_matches_spec, (names_entries _ _ _ Hout). by exists o.
    + intros page name Hpage Hin Hholds.
      apply (names_entries _ _ _ Hout), log_matches_spec. split; [|done].
      apply list_elem_of_In, List.in_concat. exists page.
      by rewrite <- !list_elem_of_In.
Qed.

(** *** The two phases of a bucket *)

Lemma run_deletes_app (del : string → W → result unit * W) (pre post : list string) w :
  run_deletes del (pre ++ post) w =
  ((run_deletes del pre w).1 ++ (run_deletes del post (run_deletes del pre w).2).1,
   (run_deletes del post (run_deletes del pre w).2).2).
Proof.
  revert w. induction pre as [|name pre IH]; intros w; cbn.
  - by destruct (run_deletes del post w).
  - destruct (del name w) as [r w1]. rewrite IH.
    by destruct (run_deletes del pre w1).
Qed.

(** An object phase that fails leaves the world where the failing call
    left it, and nothing else. *)
Lemma empty_bucket_failed (bucket_name : string) w (e : exn) w' :
  list_objects_v2 bucket_name w = (Raise e, w') ∨
  (∃ delete_keys w1,
     list_objects_v2 bucket_name w = (Ok (Some delete_keys), w1) ∧
     delete_objects bucket_name delete_keys w1 = (Raise e, w')) →
  empty_bucket bucket_name w = w'.
Proof.
  unfold empty_bucket. intros [->|(keys & w1 & -> & Hdel)]; [done|]. by rewrite Hdel.
Qed.

(** C7: the deletion of a bucket has two phases. When the turn of a
    matching bucket comes, its objects are listed and deleted; whether or
    not that raised, [delete_bucket] is then called, in the world the
    object phase left, and the entry of the bucket comes from that call
    alone. With a failed object phase and a [delete_bucket] that returns,
    the entry has the status [deleted] and no error text. *)
Theorem bucket_outcome_ignores_object_errors (environment_prefix : string)
    m w1 buckets w2 (before : list string) (bucket_name : string) (after : list string) :
  client "s3" (world m) = (Ok tt, w1) →
  list_buckets w1 = (Ok buckets, w2) →
  swept environment_prefix buckets = before ++ bucket_name :: after →
  let w3 := (run_deletes remove_bucket before w2).2 in
  ∃ m' outcomes o,
    cleanup_s3_buckets environment_prefix m = Some (Ok tt, m') ∧
    resources_cleaned (results m') = resources_cleaned (results m) ++ outcomes ∧
    outcomes !! length before = Some o ∧
    res_type o = "s3_bucket" ∧
    res_name o = bucket_name ∧
    (∀ w4,
       (∃ e, list_objects_v2 bucket_name w3 = (Raise e, w4)) ∨
       list_objects_v2 bucket_name w3 = (Ok None, w4) ∨
       (∃ delete_keys w r,
          list_objects_v2 bucket_name w3 = (Ok (Some delete_keys), w) ∧
          delete_objects bucket_name delete_keys w = (r, w4)) →
       match delete_bucket bucket_name w4 with
       | (Ok _, _) => res_status o = "deleted" ∧ res_error o = None
       | (Raise e, _) => res_status o = "error" ∧ res_error o = Some (str_exn e)
       end) ∧
    (∀ e w4 w5,
       (list_objects_v2 bucket_name w3 = (Raise e, w4) ∨
        ∃ delete_keys w,
          list_objects_v2 bucket_name w3 = (Ok (Some delete_keys), w) ∧
          delete_objects bucket_name delete_keys w = (Raise e, w4)) →
       delete_bucket bucket_name w4 = (Ok tt, w5) →
       res_status o = "deleted" ∧ res_error o = None).
Proof.
  intros Hclient Hlist Hmatches w3.
  pose proof (sweeper_eq Bucket environment_prefix m w1 buckets w2 Hclient Hlist) as Hrun.
  cbn [sweeper service listing deletion type_of] in Hrun. cbv zeta in Hrun.
  rewrite Hmatches in Hrun.
  set (o := attempt "s3_bucket" bucket_name
              (delete_bucket bucket_name (empty_bucket bucket_name w3)).1).
  assert (zip_with (attempt "s3_bucket") (before ++ bucket_name :: after)
            (run_deletes remove_bucket (before ++ bucket_name :: after) w2).1
          !! length before = Some o) as Hentry.
  { rewrite run_deletes_app. cbn [fst snd run_deletes]. fold w3.
    change (remove_bucket bucket_name w3)
      with (delete_bucket bucket_name (empty_bucket bucket_name w3)).
    unfold o.
    destruct (delete_bucket bucket_name (empty_bucket bucket_name w3)) as [r w'].
    destruct (run_deletes remove_bucket after w') as [rs w''].
    rewrite lookup_zip_with, list_lookup_middle by done. cbn [fst snd mbind option_bind].
    rewrite list_lookup_middle; [done|]. by rewrite run_deletes_length. }
  assert (∀ w4, empty_bucket bucket_name w3 = w4 →
            match delete_bucket bucket_name w4 with
            | (Ok _, _) => res_status o = "deleted" ∧ res_error o = None
            | (Raise e, _) => res_status o = "error" ∧ res_error o = Some (str_exn e)
            end) as Hfate.
  { intros w4 <-. unfold o.
    by destruct (delete_bucket bucket_name (empty_bucket bucket_name w3)) as [[[]|e] w']. }
  eexists _, _, o. split; [exact Hrun|]. split; [done|]. split; [exact Hentry|].
  split; [unfold o; by destruct (delete_bucket _ _).1|].
  split; [unfold o; by destruct (delete_bucket _ _).1|].
  split.
  - intros w4 Hobjects. apply Hfate. unfold empty_bucket.
    destruct Hobjects as [[e ->]|[->|(keys & w & r & -> & Hdel)]]; [done..|].
    by rewrite Hdel.
  - intros e w4 w5 Hobjects Hbucket.
    pose proof (Hfate w4 (empty_bucket_failed bucket_name w3 e w4 Hobjects)) as Hdeleted.
    by rewrite Hbucket in Hdeleted.
Qed.

(** *** The age check *)

Lemma datetime_bounds (t : datetime) : 0 ≤ t ≤ max_micros.
Proof.
  destruct t as [us Hrange]. cbn [micros]. unfold in_range in Hrange.
  by apply andb_true_iff in Hrange as [?%Z.leb_le ?%Z.leb_le].
Qed.

Ltac bounds t :=
  let H := fresh "Hbounds" in
  pose proof (datetime_bounds t) as H; unfold max_micros in H.

(** The seconds between two datetimes are a finite float, and rounding
    them does not cross a whole number of seconds. *)
Lemma total_seconds_bounds (age : Z) :
  - max_micros ≤ age ≤ max_micros →
  ∃ s : Q,
    total_seconds age = Ok (Finite s) ∧
    (∀ k : Z, - 2 ^ 53 < k < 2 ^ 53 → k * 1000000 ≤ age → (inject_Z k <= s)%Q) ∧
    (∀ k : Z, - 2 ^ 53 < k < 2 ^ 53 → age ≤ k * 1000000 → (s <= inject_Z k)%Q).
Proof.
  unfold max_micros. intros Hage. unfold total_seconds, truediv.
  change (10 ^ 6) with 1000000. cbn [Z.eqb].
  destruct (round64_some (inject_Z age / inject_Z 1000000)) as [s Hs].
  { apply Qle_int_div. lia. }
  { apply Qdiv_le_int. lia. }
  rewrite Hs. exists s. split; [done|]. split; intros k Hk Hle.
  - apply (round64_ge_int _ _ k Hs Hk). by apply Qle_int_div.
  - apply (round64_le_int _ _ k Hs Hk). by apply Qdiv_le_int.
Qed.

(** The age in hours is a finite float, and the two roundings that lead
    to it do not cross a whole number of hours: an age of [k] hours or
    more is computed as [k] or more, one of [k] hours or less as [k] or
    less. *)
Lemma age_hours_bounds (t creation_time : datetime) :
  ∃ hours : Q,
    age_hours t creation_time = Ok (Finite hours) ∧
    (∀ k : Z, k * hour ≤ t - creation_time → (inject_Z k <= hours)%Q) ∧
    (∀ k : Z, t - creation_time ≤ k * hour → (hours <= inject_Z k)%Q).
Proof.
  bounds t. bounds creation_time. unfold hour.
  destruct (total_seconds_bounds (t - creation_time)) as (s & Hs & Hlow & Hup).
  { unfold max_micros. lia. }
  unfold age_hours. rewrite Hs. cbn [rbind]. unfold fdiv.
  assert (float_of_int 3600 = Ok (inject_Z 3600)) as -> by (by vm_compute).
  cbn [rbind]. change (Qeq_bool (inject_Z 3600) 0) with false. cbv iota.
  unfold nearest.
  assert (inject_Z (- 2 ^ 40) <= s)%Q as Hs_low by (apply Hlow; lia).
  assert (s <= inject_Z (2 ^ 40))%Q as Hs_up by (apply Hup; lia).
  destruct (round64_some (s / inject_Z 3600)) as [hours Hhours].
  { apply Qle_div_int. eapply Qle_trans; [|exact Hs_low]. rewrite <- Zle_Qle; lia. }
  { apply Qdiv_int_le. eapply Qle_trans; [exact Hs_up|]. rewrite <- Zle_Qle; lia. }
  rewrite Hhours. exists hours. split; [done|].
  assert (∀ k : Z, - 87649416 ≤ k → k * (3600 * 1000000) ≤ t - creation_time →
            (inject_Z k <= hours)%Q) as Hge.
  { intros k Hk Hle. apply (round64_ge_int _ _ k Hhours); [lia|].
    apply Qle_div_int, Hlow; lia. }
  assert (∀ k : Z, k ≤ 87649416 → t - creation_time ≤ k * (3600 * 1000000) →
            (hours <= inject_Z k)%Q) as Hle.
  { intros k Hk Hle. apply (round64_le_int _ _ k Hhours); [lia|].
    apply Qdiv_int_le, Hup; lia. }
  split; intros k Hk.
  - destruct (Z.le_gt_cases (- 87649416) k) as [Hnear|Hfar]; [by apply Hge|].
    eapply Qle_trans; [|apply (Hge (- 87649416)); lia]. rewrite <- Zle_Qle. lia.
  - destruct (Z.le_gt_cases k 87649416) as [Hnear|Hfar]; [by apply Hle|].
    eapply Qle_trans; [apply (Hle 87649416); lia|]. rewrite <- Zle_Qle. lia.
Qed.

(** The check always answers, and leaves the report alone. *)
Lemma should_cleanup_environment_total (environment_prefix : string)
    (auto_destroy_hours : Z) m :
  ∃ old w', should_cleanup_environment environment_prefix auto_destroy_hours m =
            Some (Ok old, set_world w' m).
Proof.
  unfold should_cleanup_environment, try_except, bind at 1. rewrite call_eq.
  destruct (client "dynamodb" (world m)) as [[[]|e] w1]; cbn [fst snd]; [|by eexists _, _].
  unfold bind at 1. rewrite call_eq. cbn [world set_world].
  destruct (list_tables w1) as [[tables|e] w2]; cbn [fst snd]; [|by eexists _, _].
  destruct (List.filter _ tables) as [|table_name rest]; [by eexists _, _|].
  unfold bind at 1. rewrite call_eq. cbn [world set_world].
  destruct (describe_table table_name w2) as [[creation_time|e] w3]; cbn [fst snd];
    [|by eexists _, _].
  unfold bind at 1, now. rewrite call_eq. cbn [world set_world].
  destruct (utcnow w3) as [t w4]. cbn [fst snd]. unfold bind, pure.
  destruct (age_hours t creation_time); by eexists _, _.
Qed.

(** The check when no listed table starts with the prefix. *)
Lemma should_cleanup_environment_none (environment_prefix : string)
    (auto_destroy_hours : Z) m w1 tables w2 :
  client "dynamodb" (world m) = (Ok tt, w1) →
  list_tables w1 = (Ok tables, w2) →
  (∀ name, name ∈ tables → ¬ ∃ rest, name = environment_prefix +:+ rest) →
  should_cleanup_environment environment_prefix auto_destroy_hours m =
    Some (Ok true, set_world w2 m).
Proof.
  intros Hclient Hlist Hnone%swept_none.
  unfold should_cleanup_environment, try_except.
  enter Hclient. enter Hlist. fold (swept environment_prefix tables). by rewrite Hnone.
Qed.



(** C2: the age check fails open. When the client cannot be made, the
    listing raises, or the description of the first matching table raises,
    the answer is [True] and the handler goes on to the sweepers. *)
Theorem age_check_fails_open (fuel : nat) (environment_prefix : string)
    (auto_destroy_hours : Z) m :
  (∃ e w1, client "dynamodb" (world m) = (Raise e, w1)) ∨
  (∃ w1 e w2,
     client "dynamodb" (world m) = (Ok tt, w1) ∧ list_tables w1 = (Raise e, w2)) ∨
  (∃ w1 tables w2 table_name rest e w3,
     client "dynamodb" (world m) = (Ok tt, w1) ∧
     list_tables w1 = (Ok tables, w2) ∧
     swept environment_prefix tables = table_name :: rest ∧
     describe_table table_name w2 = (Raise e, w3)) →
  ∃ m',
    should_cleanup_environment environment_prefix auto_destroy_hours m =
      Some (Ok true, m') ∧
    results m' = results m ∧
    run_cleanup fuel environment_prefix auto_destroy_hours m =
      try_except (sweep_all fuel environment_prefix) report_failure m'.
Proof.
  intros Hfail.
  assert (∃ m', should_cleanup_environment environment_prefix auto_destroy_hours m =
                  Some (Ok true, m') ∧ results m' = results m) as (m' & Hcheck & Hres).
  { unfold should_cleanup_environment, try_except, bind at 1. rewrite call_eq.
    destruct Hfail as [(e & w1 & ->)|[(w1 & e & w2 & -> & Hlist)|
      (w1 & tables & w2 & table_name & rest & e & w3 & -> & Hlist & Hfirst & Hdescribe)]];
      cbn [fst snd].
    - by eexists.
    - enter Hlist. by eexists.
    - enter Hlist. fold (swept environment_prefix tables). rewrite Hfirst.
      enter Hdescribe. by eexists. }
  exists m'. split; [done|]. split; [done|].
  unfold run_cleanup. unfold try_except. unfold bind at 1. by rewrite Hcheck.
Qed.

(** *** The handler *)

(** C5: a check that answers [False] ends the handler there. The response
    is a 200 whose report says [skipped], gives the reason, and lists no
    resource; the world is the one the check left, no sweeper has touched
    it. *)
Theorem handler_skips_young_environment (fuel : nat) (environ : gmap string string)
    (environment_prefix : string) (auto_destroy_hours : Z) w t w1 m' :
  environ !! "ENVIRONMENT_PREFIX" = Some environment_prefix →
  environment_prefix ≠ "" →
  int (default "24" (environ !! "AUTO_DESTROY_HOURS")) = Ok auto_destroy_hours →
  utcnow w = (t, w1) →
  should_cleanup_environment environment_prefix auto_destroy_hours
    {| world := w1; results := initial_results environment_prefix auto_destroy_hours t |} =
    Some (Ok false, m') →
  lambda_handler fuel environ w =
    Some (Ok {| statusCode := 200;
                body := ReportBody
                  {| environment_prefix := environment_prefix;
                     auto_destroy_hours := auto_destroy_hours;
                     cleanup_timestamp := t;
                     resources_cleaned := [];
                     action := Some "skipped";
                     reason := Some "Environment not old enough for cleanup";
                     status := None;
                     error := None |} |},
          world m').
Proof.
  intros Hprefix Hne Hhours Hnow Hcheck.
  destruct (should_cleanup_environment_total environment_prefix auto_destroy_hours
              {| world := w1;
                 results := initial_results environment_prefix auto_destroy_hours t |})
    as (old & w2 & Htotal).
  rewrite Htotal in Hcheck. injection Hcheck as -> <-.
  unfold lambda_handler. rewrite Hprefix, Hhours. cbn [default from_option id].
  destruct (String.eqb_spec environment_prefix "") as [|_]; [done|].
  rewrite Hnow. cbv beta iota zeta.
  unfold run_cleanup, try_except, bind at 1. by rewrite Htotal.
Qed.


End CleanupProperties.

(** ** The cleanup script at work *)
Section CleanupExamples.
Import Py EphemeralCleanup.


(** One microsecond less and the environment is kept. *)
Example age_check_just_below :
  ∃ m',
    should_cleanup_environment "dev-feat1-" 24
      (sample_mem (at_time (48 * hour - 1) sample)) = Some (Ok false, m').
Proof. eexists. vm_compute. reflexivity. Qed.

(** With a threshold of 5000000 hours the seconds of an age that is one
    microsecond short round to those of the threshold: the age in hours
    is computed as 5000000, and the environment counts as old enough. *)
Example age_check_rounds_up :
  age_hours (moment (24 * hour + 5000000 * hour - 1)) (moment (24 * hour)) =
    Ok (Finite (inject_Z 5000000)) ∧
  ∃ m',
    should_cleanup_environment "dev-feat1-" 5000000
      (sample_mem (at_time (24 * hour + 5000000 * hour - 1) sample)) =
      Some (Ok true, m').
Proof. split; [|eexists]; vm_compute; reflexivity. Qed.

(** The environment is six hours old, but the listing is broken. *)
Lemma age_check_fails_open_witness :
  ∃ m',
    should_cleanup_environment "dev-feat1-" 24
      (sample_mem (break ["list_tables"] sample)) = Some (Ok true, m').
Proof.
  destruct (age_check_fails_open 5 "dev-feat1-" 24
              (sample_mem (break ["list_tables"] sample)))
    as (m' & Hcheck & Hres & Hrun).
  { right; left. eexists _, _, _. split; vm_compute; reflexivity. }
  exists m'. exact Hcheck.
Defined.

(** Two tables match, the deletion of the first one fails. *)
Lemma sweeper_one_outcome_per_attempt_witness :
  ∃ m' outcomes,
    sweeper Table "dev-feat1-"
      (sample_mem (break ["delete_table dev-feat1-users"] sample)) = Some (Ok tt, m') ∧
    length outcomes = 2%nat ∧
    res_name <$> outcomes = ["dev-feat1-users"; "dev-feat1-orders"] ∧
    length (List.filter (has_status "error") outcomes) = 1%nat ∧
    length (List.filter (has_status "deleted") outcomes) = 1%nat.
Proof.
  set (w := break ["delete_table dev-feat1-users"] sample).
  assert (client (service Table) (world (sample_mem w)) =
          (Ok tt, logged "client dynamodb" w)) as Hclient by reflexivity.
  assert (listing Table (logged "client dynamodb" w) =
          (Ok ["prod-users"; "dev-feat1-users"; "dev-feat1-orders"],
           logged "list_tables" (logged "client dynamodb" w))) as Hlist by reflexivity.
  destruct (sweeper_one_outcome_per_attempt Table "dev-feat1-" (sample_mem w)
              _ _ _ Hclient Hlist)
    as (m' & outcomes & Hrun & Happ & Hlen & Hnames & Hstatus & Hone).
  exists m', outcomes.
  split; [exact Hrun|]. split; [exact Hlen|]. split; [exact Hnames|].
  apply Hone. reflexivity.
Defined.

Example sweeper_failure_recorded :
  resources_cleaned ∘ results <$>
    (snd <$> sweeper Table "dev-feat1-"
               (sample_mem (break ["delete_table dev-feat1-users"] sample))) =
  Some [failed "dynamodb_table" "dev-feat1-users"
          (ClientError "An error occurred when calling delete_table dev-feat1-users");
        deleted "dynamodb_table" "dev-feat1-orders"].
Proof. reflexivity. Qed.

(** The bus listing holds one match at its start, the log groups one in
    the middle of a name on the first page and one on the second. *)
Lemma sweepers_select_by_name_witness :
  (∃ m' outcomes,
     sweeper Bus "dev-feat1-" (sample_mem sample) = Some (Ok tt, m') ∧
     res_name <$> outcomes = ["dev-feat1-bus"] ∧
     ∃ o, o ∈ outcomes ∧ res_name o = "dev-feat1-bus") ∧
  (∃ m' outcomes,
     cleanup_cloudwatch_logs 2 "dev-feat1-" (sample_mem sample) = Some (Ok tt, m') ∧
     res_name <$> outcomes = ["/aws/lambda/dev-feat1-api"; "dev-feat1-audit"] ∧
     ∃ o, o ∈ outcomes ∧ res_name o = "/aws/lambda/dev-feat1-api").
Proof.
  destruct (sweepers_select_by_name (W := Fake) "dev-feat1-") as [Hstart Hlogs]. split.
  - assert (client (service Bus) (world (sample_mem sample)) =
            (Ok tt, logged "client events" sample)) as Hclient
      by (vm_compute; reflexivity).
    assert (listing Bus (logged "client events" sample) =
            (Ok ["default"; "dev-feat1-bus"],
             logged "list_event_buses" (logged "client events" sample))) as Hlist
      by (vm_compute; reflexivity).
    destruct (Hstart Bus (sample_mem sample) _ _ _ Hclient Hlist)
      as (m' & outcomes & Hrun & _ & _ & Hcomplete & Hnames).
    exists m', outcomes. split; [exact Hrun|]. split; [exact Hnames|].
    apply Hcomplete; [right; left | exists "bus"; reflexivity].
  - assert (client "logs" (world (sample_mem sample)) =
            (Ok tt, logged "client logs" sample)) as Hclient
      by (vm_compute; reflexivity).
    destruct (Hlogs 2%nat (sample_mem sample) _
                [["/aws/lambda/dev-feat1-api"; "/aws/lambda/prod-api"]; ["dev-feat1-audit"]]
                Hclient)
      as (m' & outcomes & Hrun & _ & _ & Hcomplete & Hnames).
    { eexists _, _. split; [vm_compute; reflexivity|].
      eexists. split; [reflexivity|].
      eexists _, _. split; vm_compute; reflexivity. }
    { cbn. lia. }
    exists m', outcomes. split; [exact Hrun|]. split; [exact Hnames|].
    apply (Hcomplete ["/aws/lambda/dev-feat1-api"; "/aws/lambda/prod-api"]);
      [left | left | exists "/aws/lambda/", "api"; reflexivity].
Defined.

(** The log sweeper with too little fuel for the two pages. *)
Example log_sweeper_out_of_fuel :
  cleanup_cloudwatch_logs 1 "dev-feat1-" (sample_mem sample) = None.
Proof. reflexivity. Qed.

(** The sample environment is six hours old. *)
Lemma handler_skips_young_environment_witness :
  ∃ w',
    lambda_handler 5 sample_environ sample =
      Some (Ok {| statusCode := 200;
                  body := ReportBody
                    {| environment_prefix := "dev-feat1-";
                       auto_destroy_hours := 24;
                       cleanup_timestamp := 30 * hour;
                       resources_cleaned := [];
                       action := Some "skipped";
                       reason := Some "Environment not old enough for cleanup";
                       status := None;
                       error := None |} |}, w') ∧
    trace w' = ["client dynamodb"; "list_tables"; "describe_table dev-feat1-users"].
Proof.
  assert (sample_environ !! "ENVIRONMENT_PREFIX" = Some "dev-feat1-") as Hprefix
    by (vm_compute; reflexivity).
  assert ("dev-feat1-" ≠ "") as Hne by discriminate.
  assert (int (default "24" (sample_environ !! "AUTO_DESTROY_HOURS")) = Ok 24) as Hhours
    by (vm_compute; reflexivity).
  assert (utcnow sample = (moment (30 * hour), sample)) as Hnow
    by (vm_compute; reflexivity).
  eassert (should_cleanup_environment "dev-feat1-" 24
             {| world := sample;
                results := initial_results "dev-feat1-" 24 (moment (30 * hour)) |} =
           Some (Ok false, _)) as Hcheck by (vm_compute; reflexivity).
  pose proof (handler_skips_young_environment 5 sample_environ "dev-feat1-" 24
                sample _ _ _ Hprefix Hne Hhours Hnow Hcheck) as Hrun.
  eexists. split; [exact Hrun|]. vm_compute. reflexivity.
Defined.



(** The objects of the one matching bucket cannot be deleted. *)
Lemma bucket_outcome_ignores_object_errors_witness :
  ∃ m' (outcomes : list Outcome) o,
    cleanup_s3_buckets "dev-feat1-"
      (sample_mem (break ["delete_objects dev-feat1-assets"] sample)) = Some (Ok tt, m') ∧
    outcomes !! 0%nat = Some o ∧
    res_name o = "dev-feat1-assets" ∧
    res_status o = "deleted" ∧ res_error o = None.
Proof.
  set (w := break ["delete_objects dev-feat1-assets"] sample).
  assert (client "s3" (world (sample_mem w)) = (Ok tt, logged "client s3" w))
    as Hclient by reflexivity.
  assert (list_buckets (logged "client s3" w) =
          (Ok ["dev-feat1-assets"; "prod-assets"],
           logged "list_buckets" (logged "client s3" w))) as Hlist by reflexivity.
  assert (swept "dev-feat1-" ["dev-feat1-assets"; "prod-assets"] =
          [] ++ "dev-feat1-assets" :: []) as Hmatch by reflexivity.
  destruct (bucket_outcome_ignores_object_errors "dev-feat1-" (sample_mem w)
              _ _ _ _ _ _ Hclient Hlist Hmatch)
    as (m' & outcomes & o & Hrun & Happ & Hentry & Htype & Hname & Hfate & Hfailed).
  exists m', outcomes, o. split; [exact Hrun|]. split; [exact Hentry|].
  split; [exact Hname|].
  eapply Hfailed; [right; eexists _, _; split; vm_compute; reflexivity
                  | vm_compute; reflexivity].
Defined.

(** A whole sweep, two days later: the four sweepers in their order. *)
Example handler_completes :
  (fun r => match r with
            | (Ok {| body := ReportBody report |}, _) =>
                Some (action report, status report,
                      (fun o => (res_type o, res_name o, res_status o)) <$>
                        resources_cleaned report)
            | _ => None
            end) <$> lambda_handler 5 sample_environ (at_time (48 * hour) sample) =
  Some (Some (Some "completed", Some "success",
              [("dynamodb_table", "dev-feat1-users", "deleted");
               ("dynamodb_table", "dev-feat1-orders", "deleted");
               ("s3_bucket", "dev-feat1-assets", "deleted");
               ("eventbridge_bus", "dev-feat1-bus", "deleted");
               ("cloudwatch_log_group", "/aws/lambda/dev-feat1-api", "deleted");
               ("cloudwatch_log_group", "dev-feat1-audit", "deleted")])).
Proof. reflexivity. Qed.

End CleanupExamples.

(** ** Properties of the audit writer *)
Section AuditProperties.
Import Py EventProcessor.
Context {R : Type} `{Runtime R}.

(** The expiry counter of a clock reading [t]. The seconds of the reading
    are a float, and so is their sum with the 90 days; neither rounding
    crosses a whole second downwards, and as long as the sum is below
    [2^33] floats are fine enough to tell the last microsecond of a second
    from the next second. *)
Lemma expiry_bounds (t : Z) :
  0 ≤ t ≤ max_timestamp →
  ∃ expires,
    expiry t = Ok expires ∧
    t `div` 1000000 + 90 * 24 * 60 * 60 ≤ expires ≤ t `div` 1000000 + 90 * 24 * 60 * 60 + 1 ∧
    (t `div` 1000000 + 90 * 24 * 60 * 60 < 2 ^ 33 →
     expires = t `div` 1000000 + 90 * 24 * 60 * 60).
Proof.
  unfold max_timestamp. intros Ht.
  pose proof (Z.div_mod t 1000000 ltac:(done)) as Hdiv.
  pose proof (Z.mod_pos_bound t 1000000 ltac:(done)) as Hmod.
  set (k := t `div` 1000000) in *.
  unfold expiry, seconds, truediv. change (10 ^ 6) with 1000000. cbn [Z.eqb].
  destruct (round64_some (inject_Z t / inject_Z 1000000)) as [s Hs].
  { apply Qle_int_div. lia. }
  { apply Qdiv_le_int. lia. }
  rewrite Hs. cbn [rbind]. unfold fadd.
  assert (float_of_int (90 * 24 * 60 * 60) = Ok (inject_Z 7776000)) as ->
    by (by vm_compute).
  cbn [rbind]. unfold nearest.
  assert (inject_Z k <= s)%Q as Hs_low.
  { apply (round64_ge_int _ _ k Hs); [lia|]. apply Qle_int_div. lia. }
  assert (s <= inject_Z (k + 1))%Q as Hs_up.
  { apply (round64_le_int _ _ (k + 1) Hs); [lia|]. apply Qdiv_le_int. lia. }
  assert (inject_Z (k + 7776000) <= s + inject_Z 7776000)%Q as Hsum_low.
  { rewrite inject_Z_plus. apply Qplus_le_compat; [done | apply Qle_refl]. }
  assert (s + inject_Z 7776000 <= inject_Z (k + 1 + 7776000))%Q as Hsum_up.
  { rewrite (inject_Z_plus (k + 1)). apply Qplus_le_compat; [done | apply Qle_refl]. }
  destruct (round64_some (s + inject_Z 7776000)) as [y Hy].
  { eapply Qle_trans; [|exact Hsum_low]. rewrite <- Zle_Qle. lia. }
  { eapply Qle_trans; [exact Hsum_up|]. rewrite <- Zle_Qle. lia. }
  rewrite Hy. cbn [int_of_float]. exists (truncate y). split; [done|].
  assert (inject_Z (k + 7776000) <= y)%Q as Hy_low
    by (apply (round64_ge_int _ _ _ Hy); [lia | done]).
  assert (y <= inject_Z (k + 1 + 7776000))%Q as Hy_up
    by (apply (round64_le_int _ _ _ Hy); [lia | done]).
  assert (0 <= y)%Q as Hpos.
  { eapply Qle_trans; [|exact Hy_low]. change 0%Q with (inject_Z 0).
    rewrite <- Zle_Qle. lia. }
  pose proof (truncate_le y Hpos) as Hfloor.
  change (90 * 24 * 60 * 60) with 7776000.
  split; [split|].
  - by apply truncate_ge.
  - assert (inject_Z (truncate y) <= inject_Z (k + 1 + 7776000))%Q as Hle
      by (by eapply Qle_trans).
    rewrite <- Zle_Qle in Hle. lia.
  - intros Hearly.
    assert (k + 7776000 ≤ truncate y) as Hlow by (by apply truncate_ge).
    pose proof (round64_le _ _ ((k + 1) * 2 ^ 20 - 1) 20 Hs ltac:(lia) ltac:(lia)) as Hs_fine.
    change (Z.to_pos (2 ^ 20)) with 1048576%positive in Hs_fine.
    assert (s <= (k + 1) * 2 ^ 20 - 1 # 1048576)%Q as Hs_below.
    { apply Hs_fine. rewrite Qdiv_int. unfold Qle. cbn [Qnum Qden]. lia. }
    pose proof (round64_le _ _ ((k + 1 + 7776000) * 2 ^ 20 - 1) 20 Hy
                  ltac:(lia) ltac:(lia)) as Hy_fine.
    change (Z.to_pos (2 ^ 20)) with 1048576%positive in Hy_fine.
    assert (y <= (k + 1 + 7776000) * 2 ^ 20 - 1 # 1048576)%Q as Hy_below.
    { apply Hy_fine.
      eapply Qle_trans; [apply Qplus_le_compat; [exact Hs_below | apply Qle_refl]|].
      unfold Qle, Qplus, inject_Z. cbn [Qnum Qden]. lia. }
    assert (inject_Z (truncate y) <= (k + 1 + 7776000) * 2 ^ 20 - 1 # 1048576)%Q as Hbelow
      by (by eapply Qle_trans).
    unfold Qle, inject_Z in Hbelow. cbn [Qnum Qden] in Hbelow. lia.
Qed.

(** C9 (as amended): an event that is a JSON object is recorded whatever
    its entries, provided the table name is configured and the write goes
    through. The handler draws one identifier, reads the clock twice,
    writes one item and answers 200 with that identifier. The [ttl] of
    the item is computed in floats from the second reading: it is the
    reading in whole seconds plus 90 days as long as that is below
    [2^33], and never more than one second above it. With no table name,
    missing or empty, the answer is 500 and nothing is written. *)
Theorem audit_record_written (environ : gmap string string) (event : gmap string pyval)
    (r : R) :
  (∀ (table_name : string) id r1 t r2 t' r3,
     environ !! "AUDIT_TABLE_NAME" = Some table_name →
     table_name ≠ "" →
     uuid4 r = (id, r1) →
     now r1 = (t, r2) →
     now r2 = (t', r3) →
     0 ≤ t' ≤ max_timestamp →
     ∃ expires,
       expiry t' = Ok expires ∧
       t' `div` 1000000 + 90 * 24 * 60 * 60 ≤ expires
         ≤ t' `div` 1000000 + 90 * 24 * 60 * 60 + 1 ∧
       (t' `div` 1000000 + 90 * 24 * 60 * 60 < 2 ^ 33 →
        expires = t' `div` 1000000 + 90 * 24 * 60 * 60) ∧
       ∀ r4,
         put_item table_name
           {| event_id := id;
              timestamp := t;
              event_type := default (PStr "Unknown") (event !! "detail-type");
              source := default (PStr "Unknown") (event !! "source");
              detail := default (PDict ∅) (event !! "detail");
              ttl := expires |} r3 = (Ok tt, r4) →
         lambda_handler environ (PDict event) r =
           Some (Ok {| statusCode := 200;
                       body := Processed "Event processed successfully" id |}, r4)) ∧
  (environ !! "AUDIT_TABLE_NAME" = None ∨ environ !! "AUDIT_TABLE_NAME" = Some "" →
   lambda_handler environ (PDict event) r =
     Some (Ok {| statusCode := 500; body := Plain "Configuration error" |}, r)).
Proof.
  split.
  - intros table_name id r1 t r2 t' r3 Htable Hne Hid Ht Ht' Hrange.
    destruct (expiry_bounds t' Hrange) as (expires & Hexpiry & Hbounds & Hexact).
    exists expires. do 3 (split; [done|]). intros r4 Hput.
    unfold lambda_handler, try_except, process. rewrite Htable.
    destruct table_name as [|c table_name]; [done|].
    unfold get, pure at 1 2 3, bind at 1. unfold bind at 1. unfold bind at 1.
    unfold bind at 1, effect at 1. rewrite Hid.
    unfold bind at 1, effect at 1. rewrite Ht.
    unfold bind at 1, effect at 1. rewrite Ht'.
    unfold bind at 1, pure. rewrite Hexpiry.
    unfold bind, call. by rewrite Hput.
  - intros [Hnone|Hempty]; unfold lambda_handler, try_except, process.
    + by rewrite Hnone.
    + by rewrite Hempty.
Qed.

End AuditProperties.

Section AuditExamples.
Import Py EventProcessor.

Lemma audit_record_written_witness :
  lambda_handler {[ "AUDIT_TABLE_NAME" := "audit" ]} (PDict order_created) sample =
    Some (Ok {| statusCode := 200;
                body := Processed "Event processed successfully" "uuid-" |},
          {| drawn := 1; clock := 1700000000125456;
             items := [("audit",
                        {| event_id := "uuid-";
                           timestamp := 1700000000123456;
                           event_type := PStr "OrderCreated";
                           source := PStr "orders";
                           detail := PDict {[ "orderId" := PInt 42 ]};
                           ttl := 1707776000 |})];
             writable := true |}) ∧
  lambda_handler ∅ (PDict order_created) sample =
    Some (Ok {| statusCode := 500; body := Plain "Configuration error" |}, sample).
Proof.
  set (environ := {[ "AUDIT_TABLE_NAME" := "audit" ]} : gmap string string).
  set (r1 := {| drawn := 1; clock := 1700000000123456; items := []; writable := true |}).
  set (r2 := {| drawn := 1; clock := 1700000000124456; items := []; writable := true |}).
  set (r3 := {| drawn := 1; clock := 1700000000125456; items := []; writable := true |}).
  destruct (audit_record_written environ order_created sample) as [Hwritten _].
  destruct (audit_record_written ∅ order_created sample) as [_ Hrefused].
  assert (environ !! "AUDIT_TABLE_NAME" = Some "audit") as Htable
    by (vm_compute; reflexivity).
  assert ("audit" ≠ "") as Hne by discriminate.
  assert (uuid4 sample = ("uuid-", r1)) as Hid by (vm_compute; reflexivity).
  assert (now r1 = (1700000000123456, r2)) as Ht by (vm_compute; reflexivity).
  assert (now r2 = (1700000000124456, r3)) as Ht' by (vm_compute; reflexivity).
  assert (0 ≤ 1700000000124456 ≤ max_timestamp) as Hrange by (vm_compute; by split).
  destruct (Hwritten "audit" _ _ _ _ _ _ Htable Hne Hid Ht Ht' Hrange)
    as (expires & _ & _ & Hexact & Hrun).
  rewrite Hexact in Hrun by (vm_compute; reflexivity).
  split.
  - apply Hrun. vm_compute. reflexivity.
  - apply Hrefused. left. vm_compute. reflexivity.
Defined.

(** C9 (as stated) fails: with no table name configured, a well-formed
    event is answered with 500 and nothing is written. *)
Lemma audit_unconfigured_rejects :
  lambda_handler ∅ (PDict order_created) sample =
    Some (Ok {| statusCode := 500; body := Plain "Configuration error" |}, sample).
Proof. vm_compute. reflexivity. Qed.

(** So does a write that the table refuses. *)
Example audit_write_refused :
  lambda_handler {[ "AUDIT_TABLE_NAME" := "audit" ]} (PDict order_created)
    {| drawn := 0; clock := 1700000000123456; items := []; writable := false |} =
    Some (Ok {| statusCode := 500;
                body := Failed "Event processing failed" "AccessDeniedException" |},
          {| drawn := 1; clock := 1700000000125456; items := []; writable := false |}).
Proof. vm_compute. reflexivity. Qed.

(** A reading in the last microsecond of second 8589934582: the sum with
    the 90 days is beyond [2^33], where floats are more than a
    microsecond apart, and it rounds to the next whole second. *)
Example expiry_rounds_up :
  expiry 8589934582999999 = Ok 8597710583 ∧
  8589934582999999 `div` 1000000 + 90 * 24 * 60 * 60 = 8597710582.
Proof. by vm_compute. Qed.

End AuditExamples.

(** ** More on the authorizer *)
Section AuthorizerFurther.
Import Py Authorizer.

Lemma authorize_headers (event headers : gmap string pyval) :
  event !! "headers" = Some (PDict headers) →
  authorize (PDict event) =
    rbind (validate (chosen_key headers)) (fun is_authorized =>
      Ok (PDict {[ "isAuthorized" := PBool is_authorized;
                   "context" := PDict {[ "apiKey" :=
                      if is_authorized then chosen_key headers else PStr "invalid" ]} ]})).
Proof.
  intros Hheaders. unfold authorize, get at 1. rewrite Hheaders. cbn [default from_option id rbind].
  unfold get, por, chosen_key. cbn [rbind]. cbv zeta.
  by destruct (truthy (default PNone (headers !! "x-api-key"))).
Qed.

Lemma validate_sized (v : pyval) :
  validate v = Ok true ↔ sized_nonempty v.
Proof.
  destruct v as [| | | |s|l|d]; cbn; try (split; [done | by intros []]).
  - split.
    + intros [= Hlen%Z.ltb_lt]. by destruct s.
    + intros Hne. do 2 f_equal. apply Z.ltb_lt. destruct s; [done | cbn; lia].
  - split.
    + intros [= Hlen%Z.ltb_lt]. by destruct l.
    + intros Hne. do 2 f_equal. apply Z.ltb_lt. destruct l; [done | cbn; lia].
  - split.
    + intros [= Hlen%Z.ltb_lt] ->. by rewrite map_size_empty in Hlen.
    + intros Hne. do 2 f_equal. apply Z.ltb_lt.
      apply map_size_non_empty_iff in Hne. lia.
Qed.

(** X1: Whatever the headers hold, strings or not: the handler authorizes
    exactly when the value it picks has a length and is not empty, and it
    then hands that very value back as [apiKey]. A non-empty list under
    [x-api-key] authorizes; a number does not. *)
Theorem authorizer_decision (event headers : gmap string pyval) :
  event !! "headers" = Some (PDict headers) →
  (is_authorized (lambda_handler (PDict event)) = Some true ↔
   sized_nonempty (chosen_key headers)) ∧
  (sized_nonempty (chosen_key headers) →
   lambda_handler (PDict event) = granted (chosen_key headers)).
Proof.
  intros Hheaders. unfold lambda_handler. rewrite (authorize_headers _ _ Hheaders).
  destruct (validate (chosen_key headers)) as [[]|e] eqn:Hvalid; cbn [rbind].
  - apply validate_sized in Hvalid. by split.
  - assert (¬ sized_nonempty (chosen_key headers)) as Hnot.
    { intros Hs%validate_sized. congruence. }
    split; [|done]. split; [by intros [=] | done].
  - assert (¬ sized_nonempty (chosen_key headers)) as Hnot.
    { intros Hs%validate_sized. congruence. }
    split; [|done]. split; [by intros [=] | done].
Qed.

Lemma authorizer_decision_witness :
  lambda_handler
    (PDict {[ "headers" := PDict {[ "x-api-key" := PList [PStr "k"] ]} ]}) =
  granted (PList [PStr "k"]).
Proof.
  set (headers := {[ "x-api-key" := PList [PStr "k"] ]} : gmap string pyval).
  set (event := {[ "headers" := PDict headers ]} : gmap string pyval).
  assert (event !! "headers" = Some (PDict headers)) as Hheaders
    by (vm_compute; reflexivity).
  assert (chosen_key headers = PList [PStr "k"]) as Hkey by (vm_compute; reflexivity).
  destruct (authorizer_decision event headers Hheaders) as [_ Hgranted].
  rewrite Hkey in Hgranted. apply Hgranted. discriminate.
Defined.

(** X2: On string headers the value under [x-api-key] wins whenever it is not
    empty, [X-API-Key] is the fallback, and the key that authorized the
    request is handed back under [apiKey]; with neither, the response says
    [invalid]. *)
Theorem authorizer_key_precedence (headers : gmap string string)
    (rest : gmap string pyval) :
  (∀ v, headers !! "x-api-key" = Some v → v ≠ "" →
        lambda_handler (request headers rest) = granted (PStr v)) ∧
  (∀ u, headers !! "x-api-key" = None ∨ headers !! "x-api-key" = Some "" →
        headers !! "X-API-Key" = Some u → u ≠ "" →
        lambda_handler (request headers rest) = granted (PStr u)) ∧
  (headers !! "x-api-key" = None ∨ headers !! "x-api-key" = Some "" →
   headers !! "X-API-Key" = None ∨ headers !! "X-API-Key" = Some "" →
   lambda_handler (request headers rest) = denied).
Proof.
  unfold lambda_handler. rewrite authorize_request. cbv zeta.
  assert (∀ w, w ≠ "" → (0 <? Z.of_nat (String.length w)) = true) as Hpos.
  { intros w Hw. by apply length_pos_nonempty. }
  split; [|split].
  - intros v -> Hv. destruct (String.eqb_spec v "") as [|_]; [done|]. by rewrite Hpos.
  - intros u Hlower -> Hu. cbn [default fmap option_fmap option_map from_option id].
    destruct Hlower as [->| ->]; cbn [String.eqb]; by rewrite Hpos.
  - intros [->| ->] [->| ->]; reflexivity.
Qed.

Lemma authorizer_key_precedence_witness :
  lambda_handler (request {[ "x-api-key" := "low"; "X-API-Key" := "UP" ]} ∅) =
    granted (PStr "low") ∧
  lambda_handler (request {[ "x-api-key" := ""; "X-API-Key" := "UP" ]} ∅) =
    granted (PStr "UP") ∧
  lambda_handler (request {[ "X-API-Key" := "" ]} ∅) = denied.
Proof.
  split; [|split].
  - destruct (authorizer_key_precedence
                {[ "x-api-key" := "low"; "X-API-Key" := "UP" ]} ∅) as (Hlower & _ & _).
    apply (Hlower "low"); [vm_compute; reflexivity | discriminate].
  - destruct (authorizer_key_precedence
                {[ "x-api-key" := ""; "X-API-Key" := "UP" ]} ∅) as (_ & Hupper & _).
    apply (Hupper "UP");
      [right; vm_compute; reflexivity | vm_compute; reflexivity | discriminate].
  - destruct (authorizer_key_precedence {[ "X-API-Key" := "" ]} ∅) as (_ & _ & Hnone).
    apply Hnone; [left | right]; vm_compute; reflexivity.
Defined.

(** X3: Events that do not have the expected shape. With no [headers] entry
    the handler looks into an empty dict and answers [invalid]; an event
    that is not a dict, or a [headers] entry that is not one ([null], a
    string, a list), makes the body raise and the answer is the error
    response. None of them is authorized. *)
Theorem authorizer_malformed_events :
  (∀ event : gmap string pyval,
     event !! "headers" = None → lambda_handler (PDict event) = denied) ∧
  (∀ event : pyval,
     (∀ d, event ≠ PDict d) → lambda_handler event = refused) ∧
  (∀ (event : gmap string pyval) (headers : pyval),
     event !! "headers" = Some headers → (∀ d, headers ≠ PDict d) →
     lambda_handler (PDict event) = refused).
Proof.
  split; [|split].
  - intros event Hnone. unfold lambda_handler, authorize, get at 1. by rewrite Hnone.
  - intros event Hnot. unfold lambda_handler, authorize.
    destruct event; try reflexivity. by destruct (Hnot d).
  - intros event headers Hsome Hnot. unfold lambda_handler, authorize, get at 1.
    rewrite Hsome. cbn [default from_option id rbind].
    destruct headers; try reflexivity. by destruct (Hnot d).
Qed.

Lemma authorizer_malformed_events_witness :
  lambda_handler (PDict {[ "version" := PStr "2.0" ]}) = denied ∧
  lambda_handler (PList []) = refused ∧
  lambda_handler (PDict {[ "headers" := PNone ]}) = refused.
Proof.
  destruct authorizer_malformed_events as (Hmissing & Hshape & Hheaders).
  split; [|split].
  - apply Hmissing. vm_compute. reflexivity.
  - apply Hshape. discriminate.
  - apply (Hheaders _ PNone); [vm_compute; reflexivity | discriminate].
Defined.

End AuthorizerFurther.

(** ** More on the audit writer *)
Section AuditFurther.
Import Py EventProcessor.
Context {R : Type} `{Runtime R}.

(** X4: Without a table name, missing or empty, the handler answers 500
    [Configuration error] before it looks at the event: no identifier is
    drawn, the clock is not read, nothing is written. *)
Theorem audit_unconfigured_never_writes (environ : gmap string string)
    (event : pyval) (r : R) :
  environ !! "AUDIT_TABLE_NAME" = None ∨ environ !! "AUDIT_TABLE_NAME" = Some "" →
  lambda_handler environ event r =
    Some (Ok {| statusCode := 500; body := Plain "Configuration error" |}, r).
Proof.
  intros [Hnone|Hempty]; unfold lambda_handler, try_except, process.
  - by rewrite Hnone.
  - by rewrite Hempty.
Qed.

(** X5: An event that is not a JSON object has no [get]: the [AttributeError]
    is caught, the answer is 500 with its text, and the runtime is left
    as it was. *)
Theorem audit_malformed_event (environ : gmap string string) (event : pyval)
    (table_name : string) (r : R) :
  environ !! "AUDIT_TABLE_NAME" = Some table_name →
  table_name ≠ "" →
  (∀ d, event ≠ PDict d) →
  lambda_handler environ event r =
    Some (Ok {| statusCode := 500;
                body := Failed "Event processing failed"
                          ("'" +:+ type_name event +:+
                           "' object has no attribute 'get'") |}, r).
Proof.
  intros Htable Hne Hshape. unfold lambda_handler, try_except, process. rewrite Htable.
  destruct table_name as [|c table_name]; [done|].
  destruct event; try reflexivity. by destruct (Hshape d).
Qed.

(** X6: With a table configured and a JSON object as event, the answer is
    decided by the one [put_item] call: 200 with the identifier when it
    returns, 500 with the text of the exception when it raises. The item
    carries the identifier drawn and the first clock reading; its [ttl]
    is computed in floats from the second reading and is that reading in
    whole seconds plus 90 days, or one second more. So with a clock that
    does not run backwards it is never less than 90 days after the
    recorded time. *)
Theorem audit_outcome_follows_write (environ : gmap string string)
    (event : gmap string pyval) (table_name : string) (r : R) id r1 t r2 t' r3 :
  environ !! "AUDIT_TABLE_NAME" = Some table_name →
  table_name ≠ "" →
  uuid4 r = (id, r1) →
  now r1 = (t, r2) →
  now r2 = (t', r3) →
  0 ≤ t ≤ t' →
  t' ≤ max_timestamp →
  ∃ item,
    event_id item = id ∧
    timestamp item = t ∧
    expiry t' = Ok (ttl item) ∧
    t' `div` 1000000 + 90 * 24 * 60 * 60 ≤ ttl item
      ≤ t' `div` 1000000 + 90 * 24 * 60 * 60 + 1 ∧
    t `div` 1000000 + 90 * 24 * 60 * 60 ≤ ttl item ∧
    lambda_handler environ (PDict event) r =
      match put_item table_name item r3 with
      | (Ok _, r4) =>
          Some (Ok {| statusCode := 200;
                      body := Processed "Event processed successfully" id |}, r4)
      | (Raise e, r4) =>
          Some (Ok {| statusCode := 500;
                      body := Failed "Event processing failed" (str_exn e) |}, r4)
      end.
Proof.
  intros Htable Hne Hid Ht Ht' Horder Hrange.
  destruct (expiry_bounds t' ltac:(lia)) as (expires & Hexpiry & Hbounds & _).
  eexists {| event_id := id; timestamp := t;
             event_type := default (PStr "Unknown") (event !! "detail-type");
             source := default (PStr "Unknown") (event !! "source");
             detail := default (PDict ∅) (event !! "detail");
             ttl := expires |}.
  cbn [event_id timestamp ttl].
  split; [done|]. split; [done|]. split; [done|]. split; [done|].
  split.
  { assert (t `div` 1000000 ≤ t' `div` 1000000) by (apply Z.div_le_mono; lia). lia. }
  unfold lambda_handler, try_except, process. rewrite Htable.
  destruct table_name as [|c table_name]; [done|].
  unfold get, pure at 1 2 3, bind at 1. unfold bind at 1. unfold bind at 1.
  unfold bind at 1, effect at 1. rewrite Hid.
  unfold bind at 1, effect at 1. rewrite Ht.
  unfold bind at 1, effect at 1. rewrite Ht'.
  unfold bind at 1, pure. rewrite Hexpiry.
  unfold bind, call.
  by destruct (put_item _ _ r3) as [[[]|e] r4].
Qed.

(** X7: The handler always answers, with 200 or with 500, and never raises.
    It answers 200 only after a [put_item] that returned, on a configured
    table, for an item that carries the identifier it reports. *)
Theorem audit_success_only_after_write (environ : gmap string string)
    (event : pyval) (r : R) :
  ∃ response r',
    lambda_handler environ event r = Some (Ok response, r') ∧
    ((statusCode response = 500 ∧ ∀ message id, body response ≠ Processed message id) ∨
     (statusCode response = 200 ∧
      ∃ table_name item r3,
        environ !! "AUDIT_TABLE_NAME" = Some table_name ∧
        table_name ≠ "" ∧
        (∃ d, event = PDict d) ∧
        put_item table_name item r3 = (Ok tt, r') ∧
        event_id item = (uuid4 r).1 ∧
        body response = Processed "Event processed successfully" (event_id item))).
Proof.
  unfold lambda_handler, try_except, process.
  destruct (environ !! "AUDIT_TABLE_NAME") as [[|c table_name]|] eqn:Htable;
    [by eexists _, _; split; [|left] | | by eexists _, _; split; [|left]].
  destruct event as [| | | | | |d]; try by (eexists _, _; split; [|left]).
  unfold get, pure at 1 2 3, bind at 1. unfold bind at 1. unfold bind at 1.
  unfold bind at 1, effect at 1. destruct (uuid4 r) as [id r1] eqn:Hid.
  unfold bind at 1, effect at 1. destruct (now r1) as [t r2].
  unfold bind at 1, effect at 1. destruct (now r2) as [t' r3].
  unfold bind at 1, pure.
  destruct (expiry t') as [expires|e]; [|by (eexists _, _; split; [|left])].
  unfold bind, call.
  destruct (put_item _ _ r3) as [[[]|e] r4] eqn:Hput.
  - eexists _, _. split; [done|]. right. split; [done|].
    eexists _, _, _. split; [done|]. split; [done|]. split; [by eexists|].
    split; [exact Hput|]. by split.
  - eexists _, _. by split; [|left].
Qed.

End AuditFurther.

Section AuditFurtherExamples.
Import Py EventProcessor.

Lemma audit_unconfigured_never_writes_witness :
  lambda_handler {[ "AUDIT_TABLE_NAME" := "" ]} (PList []) sample =
    Some (Ok {| statusCode := 500; body := Plain "Configuration error" |}, sample).
Proof.
  apply (audit_unconfigured_never_writes {[ "AUDIT_TABLE_NAME" := "" ]} (PList []) sample).
  right. vm_compute. reflexivity.
Defined.

Lemma audit_malformed_event_witness :
  lambda_handler {[ "AUDIT_TABLE_NAME" := "audit" ]} (PList []) sample =
    Some (Ok {| statusCode := 500;
                body := Failed "Event processing failed"
                          "'list' object has no attribute 'get'" |}, sample).
Proof.
  apply (audit_malformed_event {[ "AUDIT_TABLE_NAME" := "audit" ]} (PList []) "audit" sample);
    [vm_compute; reflexivity | discriminate | discriminate].
Defined.

(** The two readings fall on either side of a full second: the recorded
    time is in second 1699999999, the expiry counts from 1700000000. *)
Lemma audit_outcome_follows_write_witness :
  ∃ item,
    timestamp item = 1699999999999500 ∧
    expiry 1700000000000500 = Ok (ttl item) ∧
    1707775999 ≤ ttl item ∧
    lambda_handler {[ "AUDIT_TABLE_NAME" := "audit" ]} (PDict order_created)
      {| drawn := 0; clock := 1699999999999500; items := []; writable := false |} =
      Some (Ok {| statusCode := 500;
                  body := Failed "Event processing failed" "AccessDeniedException" |},
            {| drawn := 1; clock := 1700000000001500; items := []; writable := false |}).
Proof.
  set (r := {| drawn := 0; clock := 1699999999999500; items := []; writable := false |}).
  set (r1 := {| drawn := 1; clock := 1699999999999500; items := []; writable := false |}).
  set (r2 := {| drawn := 1; clock := 1700000000000500; items := []; writable := false |}).
  set (r3 := {| drawn := 1; clock := 1700000000001500; items := []; writable := false |}).
  assert (({[ "AUDIT_TABLE_NAME" := "audit" ]} : gmap string string)
            !! "AUDIT_TABLE_NAME" = Some "audit") as Htable by (vm_compute; reflexivity).
  assert ("audit" ≠ "") as Hne by discriminate.
  assert (uuid4 r = ("uuid-", r1)) as Hid by (vm_compute; reflexivity).
  assert (now r1 = (1699999999999500, r2)) as Ht by (vm_compute; reflexivity).
  assert (now r2 = (1700000000000500, r3)) as Ht' by (vm_compute; reflexivity).
  assert (0 ≤ 1699999999999500 ≤ 1700000000000500) as Horder by lia.
  assert (1700000000000500 ≤ max_timestamp) as Hrange by (vm_compute; discriminate).
  destruct (audit_outcome_follows_write _ order_created _ _ _ _ _ _ _ _
              Htable Hne Hid Ht Ht' Horder Hrange)
    as (item & _ & Htime & Hexpiry & _ & Hafter & Hrun).
  exists item. split; [exact Htime|]. split; [exact Hexpiry|].
  split; [exact Hafter|]. exact Hrun.
Defined.

End AuditFurtherExamples.

(** ** More on the cleanup script *)
Section CleanupFurther.
Import Py EphemeralCleanup.
Context {W : Type} `{World W}.

Implicit Types (m : Mem W) (w : W) (names : list string).

(** The next statement is a call into the world, and [H] tells its answer. *)
Ltac answer H :=
  unfold bind at 1; rewrite call_eq; cbn [world set_world]; rewrite H; cbn [fst snd].

(** *** What a sweeper can do to the report *)

Lemma attempts_entries (type : string) (P : string → Prop) names (rs : list (result unit)) :
  Forall P names →
  Forall (fun o => entry_of type o ∧ P (res_name o)) (zip_with (attempt type) names rs).
Proof.
  intros Hnames. revert rs.
  induction Hnames as [|name names Hname _ IH]; intros [|r rs]; cbn; try constructor.
  - split; [|by destruct r].
    destruct r as [[]|e]; (split; [done|]); [by left | right; by eauto].
  - apply IH.
Qed.

Lemma swept_start (environment_prefix : string) names :
  Forall (fun name => startswith name environment_prefix = true)
         (swept environment_prefix names).
Proof. apply Forall_forall. intros name Hin%list_elem_of_In%List.filter_In. by destruct Hin. Qed.

Lemma log_matches_contain (environment_prefix : string) names :
  Forall (fun name => contains environment_prefix name = true)
         (log_matches environment_prefix names).
Proof. apply Forall_forall. intros name Hin%list_elem_of_In%List.filter_In. by destruct Hin. Qed.

Lemma sweeper_client_failed (k : Kind) (environment_prefix : string) m (e : exn) w1 :
  client (service k) (world m) = (Raise e, w1) →
  sweeper k environment_prefix m = Some (Raise e, set_world w1 m).
Proof.
  intros Hclient.
  destruct k; cbn [sweeper service] in *;
    [unfold cleanup_dynamodb_tables | unfold cleanup_s3_buckets
    | unfold cleanup_eventbridge_buses];
    unfold bind at 1; by rewrite call_eq, Hclient.
Qed.

Lemma sweeper_listing_failed (k : Kind) (environment_prefix : string) m w1 (e : exn) w2 :
  client (service k) (world m) = (Ok tt, w1) →
  listing k w1 = (Raise e, w2) →
  sweeper k environment_prefix m = Some (Ok tt, set_world w2 m).
Proof.
  intros Hclient Hlist.
  destruct k; cbn [sweeper service listing] in *;
    [unfold cleanup_dynamodb_tables | unfold cleanup_s3_buckets
    | unfold cleanup_eventbridge_buses];
    answer Hclient; unfold try_except at 1; by answer Hlist.
Qed.

(** Whatever the world answers, a sweeper ends, and with the report it
    started from plus entries of its own type for names that start with
    the prefix. It raises only when its client cannot be made, and has
    then recorded nothing. *)
Lemma sweeper_frame (k : Kind) (environment_prefix : string) m :
  ∃ r m' outcomes,
    sweeper k environment_prefix m = Some (r, m') ∧
    results m' = add_outcomes outcomes (results m) ∧
    Forall (fun o => entry_of (type_of k) o ∧
                     startswith (res_name o) environment_prefix = true) outcomes ∧
    (∀ e, r = Raise e →
          outcomes = [] ∧ ∃ w1, client (service k) (world m) = (Raise e, w1)).
Proof.
  destruct (client (service k) (world m)) as [[[]|e] w1] eqn:Hclient.
  - destruct (listing k w1) as [[names|e] w2] eqn:Hlist.
    + eexists _, _, _. split; [by apply (sweeper_eq k _ m w1 names w2)|].
      split; [done|]. split; [|done].
      apply (attempts_entries _ (fun name => startswith name environment_prefix = true)),
        swept_start.
    + eexists _, _, []. split; [by apply (sweeper_listing_failed k _ m w1 e w2)|].
      split; [by rewrite add_outcomes_nil|]. by split.
  - eexists _, _, []. split; [by apply sweeper_client_failed|].
    split; [by rewrite add_outcomes_nil|]. split; [done|]. intros e' [= <-]. by eauto.
Qed.

(** X8: Whatever the world answers, the table, bucket and event-bus sweepers
    end, and all they do to the report is append: the entries already
    there and every other key stay as they were, and each new entry has
    the type of the sweeper, a name that starts with the prefix, and the
    status [deleted] or [error]. A sweeper raises only when its client
    cannot be made, and has then recorded nothing. *)
Theorem sweeper_only_appends (k : Kind) (environment_prefix : string) m :
  ∃ r m' outcomes,
    sweeper k environment_prefix m = Some (r, m') ∧
    results m' = add_outcomes outcomes (results m) ∧
    Forall (fun o =>
              res_type o = type_of k ∧
              (∃ rest, res_name o = environment_prefix +:+ rest) ∧
              (res_status o = "deleted" ∨ res_status o = "error")) outcomes ∧
    (∀ e, r = Raise e →
          outcomes = [] ∧ ∃ w1, client (service k) (world m) = (Raise e, w1)).
Proof.
  destruct (sweeper_frame k environment_prefix m)
    as (r & m' & outcomes & Hrun & Hres & Hall & Hraise).
  exists r, m', outcomes. split; [done|]. split; [done|]. split; [|done].
  eapply Forall_impl; [exact Hall|].
  intros o [[Htype Hstatus] Hname%startswith_spec].
  split; [done|]. split; [done|].
  destruct Hstatus as [[-> _]|[-> _]]; [by left | by right].
Qed.

(** X9: A listing that raises is swallowed: the sweeper returns normally, the
    report is as it was, no deletion has been tried. The same holds for
    the log sweeper when the first page cannot be fetched. *)
Theorem sweeper_listing_failure_silent (environment_prefix : string) :
  (∀ (k : Kind) m w1 (e : exn) w2,
     client (service k) (world m) = (Ok tt, w1) →
     listing k w1 = (Raise e, w2) →
     sweeper k environment_prefix m = Some (Ok tt, set_world w2 m)) ∧
  (∀ (fuel : nat) m w1 (e : exn) w2,
     client "logs" (world m) = (Ok tt, w1) →
     describe_log_groups None w1 = (Raise e, w2) →
     cleanup_cloudwatch_logs (S fuel) environment_prefix m =
       Some (Ok tt, set_world w2 m)).
Proof.
  split.
  - intros k m w1 e w2. apply sweeper_listing_failed.
  - intros fuel m w1 e w2 Hclient Hpage.
    unfold cleanup_cloudwatch_logs. answer Hclient.
    unfold try_except at 1. cbn [for_page]. by answer Hpage.
Qed.

(** *** The log sweeper *)

Lemma for_page_frame (environment_prefix : string) (fuel : nat) :
  ∀ token m r m',
    for_page fuel token (fun log_groups =>
      for_each (List.filter (fun lg => contains environment_prefix lg) log_groups)
        (fun log_group_name =>
          try_except
            (let* _ := call (delete_log_group log_group_name) in
             append (deleted "cloudwatch_log_group" log_group_name))
            (fun e => append (failed "cloudwatch_log_group" log_group_name e)))) m =
      Some (r, m') →
    ∃ outcomes,
      results m' = add_outcomes outcomes (results m) ∧
      Forall (fun o => entry_of "cloudwatch_log_group" o ∧
                       contains environment_prefix (res_name o) = true) outcomes.
Proof.
  induction fuel as [|fuel IH]; intros token m r m'; [done|].
  cbn [for_page]. unfold bind at 1. rewrite call_eq.
  destruct (describe_log_groups token (world m)) as [[[page next]|e] w1]; cbn [fst snd].
  - unfold bind at 1.
    rewrite (for_each_attempts "cloudwatch_log_group" delete_log_group)
      by (intros; apply attempt_eq).
    cbn [world set_world results]. fold (log_matches environment_prefix page).
    pose proof (attempts_entries "cloudwatch_log_group"
                  (fun name => contains environment_prefix name = true)
                  (log_matches environment_prefix page)
                  (run_deletes delete_log_group (log_matches environment_prefix page) w1).1
                  (log_matches_contain environment_prefix page)) as Hpage.
    destruct next as [t|].
    + intros (outcomes & Hres & Hall)%IH. eexists. split.
      * rewrite Hres. cbn [results]. by rewrite add_outcomes_app.
      * by apply Forall_app.
    + intros [= <- <-]. by eexists.
  - intros [= <- <-]. exists []. split; [by rewrite add_outcomes_nil | done].
Qed.

Lemma log_sweeper_frame (fuel : nat) (environment_prefix : string) m r m' :
  cleanup_cloudwatch_logs fuel environment_prefix m = Some (r, m') →
  ∃ outcomes,
    results m' = add_outcomes outcomes (results m) ∧
    Forall (fun o => entry_of "cloudwatch_log_group" o ∧
                     contains environment_prefix (res_name o) = true) outcomes ∧
    (∀ e, r = Raise e →
          outcomes = [] ∧ ∃ w1, client "logs" (world m) = (Raise e, w1)).
Proof.
  unfold cleanup_cloudwatch_logs, bind at 1. rewrite call_eq.
  destruct (client "logs" (world m)) as [[[]|e] w1]; cbn [fst snd].
  - unfold try_except at 1. cbv zeta.
    destruct (for_page fuel None _ (set_world w1 m)) as [[[[]|e] m1]|] eqn:Hrun; [| |done].
    + intros [= <- <-]. apply for_page_frame in Hrun as (outcomes & Hres & Hall).
      exists outcomes. by split; [|split].
    + intros [= <- <-]. apply for_page_frame in Hrun as (outcomes & Hres & Hall).
      exists outcomes. by split; [|split].
  - intros [= <- <-]. exists []. split; [by rewrite add_outcomes_nil|]. split; [done|].
    intros e' [= <-]. by eauto.
Qed.

(** X10: Whenever the log sweeper ends, all it has done to the report is
    append entries of type [cloudwatch_log_group] for names that hold the
    prefix. It raises only when its client cannot be made. *)
Theorem log_sweeper_only_appends (fuel : nat) (environment_prefix : string) m r m' :
  cleanup_cloudwatch_logs fuel environment_prefix m = Some (r, m') →
  ∃ outcomes,
    results m' = add_outcomes outcomes (results m) ∧
    Forall (fun o =>
              res_type o = "cloudwatch_log_group" ∧
              (∃ before after,
                 res_name o = before +:+ environment_prefix +:+ after) ∧
              (res_status o = "deleted" ∨ res_status o = "error")) outcomes ∧
    (∀ e, r = Raise e →
          outcomes = [] ∧ ∃ w1, client "logs" (world m) = (Raise e, w1)).
Proof.
  intros (outcomes & Hres & Hall & Hraise)%log_sweeper_frame.
  exists outcomes. split; [done|]. split; [|done].
  eapply Forall_impl; [exact Hall|].
  intros o [[Htype Hstatus] Hname%contains_spec].
  split; [done|]. split; [done|].
  destruct Hstatus as [[-> _]|[-> _]]; [by left | by right].
Qed.

(** X11: A page that cannot be fetched ends the log sweeper without an error:
    what the pages before it led to stays in the report, the groups on the
    pages after it are never looked at. Here the second request raises. *)
Theorem log_listing_failure_keeps_entries (fuel : nat) (environment_prefix : string)
    m w1 (page : list string) (t : string) w2 (e : exn) w3 :
  client "logs" (world m) = (Ok tt, w1) →
  describe_log_groups None w1 = (Ok (page, Some t), w2) →
  let names := log_matches environment_prefix page in
  let run := run_deletes delete_log_group names w2 in
  describe_log_groups (Some t) run.2 = (Raise e, w3) →
  cleanup_cloudwatch_logs (S (S fuel)) environment_prefix m =
    Some (Ok tt,
          {| world := w3;
             results := add_outcomes
                          (zip_with (attempt "cloudwatch_log_group") names run.1)
                          (results m) |}).
Proof.
  intros Hclient Hfirst names run Hsecond.
  unfold cleanup_cloudwatch_logs. answer Hclient.
  unfold try_except at 1. cbn [for_page]. answer Hfirst.
  unfold bind at 1.
  rewrite (for_each_attempts "cloudwatch_log_group" delete_log_group)
    by (intros; apply attempt_eq).
  cbn [world set_world results]. fold (log_matches environment_prefix page).
  fold names. fold run. by answer Hsecond.
Qed.

(** X12: A listing without repeated names leaves no two entries with the same
    name: one attempt, and one entry, per resource. *)
Theorem sweeper_names_nodup (k : Kind) (environment_prefix : string) m w1 names w2 :
  client (service k) (world m) = (Ok tt, w1) →
  listing k w1 = (Ok names, w2) →
  NoDup names →
  ∃ m' outcomes,
    sweeper k environment_prefix m = Some (Ok tt, m') ∧
    resources_cleaned (results m') = resources_cleaned (results m) ++ outcomes ∧
    NoDup (res_name <$> outcomes).
Proof.
  intros Hclient Hlist Hnodup.
  eexists _, _. split; [by apply (sweeper_eq k _ m w1 names w2)|]. split; [done|].
  rewrite attempts_names by apply run_deletes_length.
  by apply NoDup_ListNoDup, List.NoDup_filter, NoDup_ListNoDup.
Qed.

(** *** The age check, read backwards *)

(** X13: The age check always answers: every call it makes, the making of the
    client included, sits inside its [try]. And it answers [False] only
    after a table that starts with the prefix has been found and
    described, and has turned out younger than the threshold. *)
Theorem age_check_skips_only_young (environment_prefix : string)
    (auto_destroy_hours : Z) m :
  (∃ old w',
     should_cleanup_environment environment_prefix auto_destroy_hours m =
       Some (Ok old, set_world w' m)) ∧
  (∀ m',
     should_cleanup_environment environment_prefix auto_destroy_hours m =
       Some (Ok false, m') →
     ∃ w1 tables w2 table_name rest creation_time w3 t w4,
       client "dynamodb" (world m) = (Ok tt, w1) ∧
       list_tables w1 = (Ok tables, w2) ∧
       swept environment_prefix tables = table_name :: rest ∧
       describe_table table_name w2 = (Ok creation_time, w3) ∧
       utcnow w3 = (t, w4) ∧
       m' = set_world w4 m ∧
       t - creation_time < auto_destroy_hours * hour).
Proof.
  split; [apply should_cleanup_environment_total|].
  intros m'. unfold should_cleanup_environment, try_except, bind at 1. rewrite call_eq.
  destruct (client "dynamodb" (world m)) as [[[]|e] w1] eqn:Hclient; cbn [fst snd]; [|done].
  unfold bind at 1. rewrite call_eq. cbn [world set_world].
  destruct (list_tables w1) as [[tables|e] w2] eqn:Hlist; cbn [fst snd]; [|done].
  fold (swept environment_prefix tables).
  destruct (swept environment_prefix tables) as [|table_name rest] eqn:Hfirst; [done|].
  unfold bind at 1. rewrite call_eq. cbn [world set_world].
  destruct (describe_table table_name w2) as [[creation_time|e] w3] eqn:Hdescribe;
    cbn [fst snd]; [|done].
  unfold bind at 1, now. rewrite call_eq. cbn [world set_world].
  destruct (utcnow w3) as [t w4] eqn:Hnow. cbn [fst snd].
  destruct (age_hours_bounds t creation_time) as (hours & Hage & Hlow & _).
  unfold bind, pure. rewrite Hage. cbn [ret fge].
  intros [= Hyoung <-].
  exists w1, tables, w2, table_name, rest, creation_time, w3, t, w4.
  do 6 (split; [done|]).
  destruct (Z.lt_ge_cases (t - creation_time) (auto_destroy_hours * hour)) as [|Hold];
    [done|].
  apply Hlow, Qle_bool_iff in Hold. congruence.
Qed.

(** *** The handler, whatever happens *)

Lemma entries_of (type : string) (Q : Outcome → Prop) (os : list Outcome) :
  Forall (fun o => entry_of type o ∧ Q o) os → Forall (entry_of type) os.
Proof. intros Hall. eapply Forall_impl; [exact Hall|]. by intros o [? _]. Qed.

Lemma grouped_intro (tables buckets buses logs : list Outcome) :
  Forall (entry_of "dynamodb_table") tables →
  Forall (entry_of "s3_bucket") buckets →
  Forall (entry_of "eventbridge_bus") buses →
  Forall (entry_of "cloudwatch_log_group") logs →
  grouped (((tables ++ buckets) ++ buses) ++ logs).
Proof.
  intros. exists tables, buckets, buses, logs. by rewrite <- !app_assoc.
Qed.

(** The four sweepers in a row: at whatever point the row ends, the
    entries added so far are in the order of the sweepers. *)
Lemma sweep_all_shapes (fuel : nat) (environment_prefix : string) m r m' :
  sweep_all fuel environment_prefix m = Some (r, m') →
  ∃ outcomes,
    grouped outcomes ∧
    ((r = Ok {| statusCode := 200; body := ReportBody (results m') |} ∧
      results m' =
        with_status "success" (with_action "completed" (add_outcomes outcomes (results m)))) ∨
     (∃ e, r = Raise e ∧ results m' = add_outcomes outcomes (results m))).
Proof.
  unfold sweep_all, bind at 1.
  destruct (sweeper_frame Table environment_prefix m)
    as (r1 & m1 & tables & Hrun1 & Hres1 & Hall1%entries_of & _).
  cbn [sweeper] in Hrun1. rewrite Hrun1.
  destruct r1 as [[]|e1].
  2:{ intros [= <- <-]. exists (((tables ++ []) ++ []) ++ []).
      split; [by apply grouped_intro|]. right. exists e1. by rewrite !app_nil_r. }
  unfold bind at 1.
  destruct (sweeper_frame Bucket environment_prefix m1)
    as (r2 & m2 & buckets & Hrun2 & Hres2 & Hall2%entries_of & _).
  cbn [sweeper] in Hrun2. rewrite Hrun2.
  destruct r2 as [[]|e2].
  2:{ intros [= <- <-]. exists (((tables ++ buckets) ++ []) ++ []).
      split; [by apply grouped_intro|]. right. exists e2.
      rewrite !app_nil_r, Hres2, Hres1, !add_outcomes_app. by rewrite <- ?app_assoc. }
  unfold bind at 1.
  destruct (sweeper_frame Bus environment_prefix m2)
    as (r3 & m3 & buses & Hrun3 & Hres3 & Hall3%entries_of & _).
  cbn [sweeper] in Hrun3. rewrite Hrun3.
  destruct r3 as [[]|e3].
  2:{ intros [= <- <-]. exists (((tables ++ buckets) ++ buses) ++ []).
      split; [by apply grouped_intro|]. right. exists e3.
      rewrite !app_nil_r, Hres3, Hres2, Hres1, !add_outcomes_app. by rewrite <- ?app_assoc. }
  unfold bind at 1.
  destruct (cleanup_cloudwatch_logs fuel environment_prefix m3) as [[r4 m4]|] eqn:Hrun4;
    [|done].
  apply log_sweeper_frame in Hrun4 as (logs & Hres4 & Hall4 & _).
  apply entries_of in Hall4.
  destruct r4 as [[]|e4].
  - unfold bind, assign, respond. cbn [results set_results]. intros [= <- <-].
    exists (((tables ++ buckets) ++ buses) ++ logs).
    split; [by apply grouped_intro|].
    left. cbn [results set_results]. split; [done|].
    rewrite Hres4, Hres3, Hres2, Hres1, !add_outcomes_app. by rewrite <- ?app_assoc.
  - intros [= <- <-].
    exists (((tables ++ buckets) ++ buses) ++ logs).
    split; [by apply grouped_intro|].
    right. exists e4.
    rewrite Hres4, Hres3, Hres2, Hres1, !add_outcomes_app. by rewrite <- ?app_assoc.
Qed.

(** The [try] of the handler and its [except]: three ways to end, each a
    response that carries the report. *)
Lemma run_cleanup_shapes (fuel : nat) (environment_prefix : string)
    (auto_destroy_hours : Z) m res m' :
  run_cleanup fuel environment_prefix auto_destroy_hours m = Some (res, m') →
  ∃ code,
    res = Ok {| statusCode := code; body := ReportBody (results m') |} ∧
    ((code = 200 ∧
      results m' =
        with_reason "Environment not old enough for cleanup"
          (with_action "skipped" (results m))) ∨
     (∃ outcomes,
        grouped outcomes ∧ code = 200 ∧
        results m' =
          with_status "success"
            (with_action "completed" (add_outcomes outcomes (results m)))) ∨
     (∃ outcomes e,
        grouped outcomes ∧ code = 500 ∧
        results m' =
          with_error ("Cleanup failed: " +:+ str_exn e)
            (with_action "failed" (add_outcomes outcomes (results m))))).
Proof.
  unfold run_cleanup, try_except, bind at 1.
  destruct (should_cleanup_environment_total environment_prefix auto_destroy_hours m)
    as (old & w' & ->).
  destruct old; cbn [negb].
  - destruct (sweep_all fuel environment_prefix (set_world w' m)) as [[r1 m1]|] eqn:Hsweep;
      [|done].
    apply sweep_all_shapes in Hsweep as (outcomes & Hgrouped & [[-> Hres]|(e & -> & Hres)]).
    + intros [= <- <-]. exists 200. split; [done|]. right; left. by exists outcomes.
    + unfold report_failure, bind, assign, respond. cbn [results set_results].
      intros [= <- <-]. exists 500. cbn [results set_results]. split; [done|].
      right; right. exists outcomes, e. by rewrite Hres.
  - unfold skip, bind, assign, respond. cbn [results set_results set_world].
    intros [= <- <-]. exists 200. cbn [results set_results]. split; [done|]. by left.
Qed.

(** X14: Every way the handler can end. It raises only the [ValueError] of a
    threshold that does not read as an integer, before any call. Otherwise
    it answers: 400 with an error body for an empty prefix; else a report
    that names the prefix, the threshold and the time of the run, with
    200 and [skipped], 200 and [completed], or 500 and [failed] with the
    text of the exception. *)
Theorem handler_response_shapes (fuel : nat) (environ : gmap string string) w res w' :
  lambda_handler fuel environ w = Some (res, w') →
  let environment_prefix := default "" (environ !! "ENVIRONMENT_PREFIX") in
  match res with
  | Raise e =>
      int (default "24" (environ !! "AUTO_DESTROY_HOURS")) = Raise e ∧ w' = w
  | Ok response =>
      ∃ hours,
        int (default "24" (environ !! "AUTO_DESTROY_HOURS")) = Ok hours ∧
        ((environment_prefix = "" ∧ w' = w ∧
          response = {| statusCode := 400;
                        body := ErrorBody "ENVIRONMENT_PREFIX not configured" |}) ∨
         (environment_prefix ≠ "" ∧
          ∃ report,
            body response = ReportBody report ∧
            EphemeralCleanup.environment_prefix report = environment_prefix ∧
            auto_destroy_hours report = hours ∧
            cleanup_timestamp report = (utcnow w).1 ∧
            ((statusCode response = 200 ∧
              action report = Some "skipped" ∧
              reason report = Some "Environment not old enough for cleanup" ∧
              resources_cleaned report = [] ∧
              status report = None ∧ error report = None) ∨
             (statusCode response = 200 ∧
              action report = Some "completed" ∧
              status report = Some "success" ∧
              reason report = None ∧ error report = None) ∨
             (statusCode response = 500 ∧
              action report = Some "failed" ∧
              (∃ e, error report = Some ("Cleanup failed: " +:+ str_exn e)) ∧
              reason report = None ∧ status report = None))))
  end.
Proof.
  unfold lambda_handler. intros Hrun. cbv zeta.
  destruct (int (default "24" (environ !! "AUTO_DESTROY_HOURS"))) as [hours|e];
    [|by injection Hrun as <- <-].
  destruct (String.eqb_spec (default "" (environ !! "ENVIRONMENT_PREFIX")) "")
    as [Hempty|Hne].
  { injection Hrun as <- <-. exists hours. split; [done|]. by left. }
  destruct (utcnow w) as [t w1]. cbn [fst].
  destruct (run_cleanup fuel _ hours _) as [[r m]|] eqn:Hcleanup; [|done].
  injection Hrun as <- <-.
  apply run_cleanup_shapes in Hcleanup
    as (code & -> & [[-> Hres]|[(os & _ & -> & Hres)|(os & e & _ & -> & Hres)]]).
  - exists hours. split; [done|]. right. split; [done|].
    exists (results m). rewrite Hres. cbn. do 4 (split; [done|]). by left.
  - exists hours. split; [done|]. right. split; [done|].
    exists (results m). rewrite Hres. cbn. do 4 (split; [done|]). right; by left.
  - exists hours. split; [done|]. right. split; [done|].
    exists (results m). rewrite Hres. cbn. do 4 (split; [done|]). right; right.
    do 2 (split; [done|]). split; [by exists e | done].
Qed.

(** X15: In every report the handler returns, complete or cut short by a
    failure, the entries come in the order of the sweepers: tables, then
    buckets, then event buses, then log groups. *)
Theorem handler_report_grouped (fuel : nat) (environ : gmap string string)
    w response w' report :
  lambda_handler fuel environ w = Some (Ok response, w') →
  body response = ReportBody report →
  grouped (resources_cleaned report).
Proof.
  unfold lambda_handler. intros Hrun Hbody.
  destruct (int (default "24" (environ !! "AUTO_DESTROY_HOURS"))) as [hours|e]; [|done].
  destruct (String.eqb (default "" (environ !! "ENVIRONMENT_PREFIX")) "").
  { injection Hrun as <- <-. done. }
  destruct (utcnow w) as [t w1].
  destruct (run_cleanup fuel _ hours _) as [[r m]|] eqn:Hcleanup; [|done].
  injection Hrun as -> <-.
  apply run_cleanup_shapes in Hcleanup
    as (code & [= ->] & [[-> Hres]|[(os & Hos & -> & Hres)|(os & e & Hos & -> & Hres)]]);
    cbn [body] in Hbody; injection Hbody as <-; rewrite Hres; cbn; [|done..].
  exists [], [], [], []. by repeat split.
Qed.

(** X16: An exception that leaves a sweeper ends the sweep: the handler answers
    500, marks the report [failed] with the text of the exception, and
    keeps what was recorded before. Here the tables have been swept and
    the S3 client cannot be made; buckets, buses and log groups are not
    touched. *)
Theorem handler_failed_keeps_partial_report (fuel : nat)
    (environ : gmap string string) (environment_prefix : string)
    (auto_destroy_hours : Z) w t w1 m1 m2 (e : exn) w3 :
  environ !! "ENVIRONMENT_PREFIX" = Some environment_prefix →
  environment_prefix ≠ "" →
  int (default "24" (environ !! "AUTO_DESTROY_HOURS")) = Ok auto_destroy_hours →
  utcnow w = (t, w1) →
  should_cleanup_environment environment_prefix auto_destroy_hours
    {| world := w1; results := initial_results environment_prefix auto_destroy_hours t |} =
    Some (Ok true, m1) →
  cleanup_dynamodb_tables environment_prefix m1 = Some (Ok tt, m2) →
  client "s3" (world m2) = (Raise e, w3) →
  lambda_handler fuel environ w =
    Some (Ok {| statusCode := 500;
                body := ReportBody
                  (with_error ("Cleanup failed: " +:+ str_exn e)
                     (with_action "failed" (results m2))) |}, w3).
Proof.
  intros Hprefix Hne Hhours Hnow Hcheck Htables Hclient.
  unfold lambda_handler. rewrite Hprefix, Hhours. cbn [default from_option id].
  destruct (String.eqb_spec environment_prefix "") as [|_]; [done|].
  rewrite Hnow. cbv beta iota zeta.
  unfold run_cleanup, try_except, bind at 1. rewrite Hcheck. cbn [negb].
  unfold sweep_all, bind at 1. rewrite Htables.
  unfold bind at 1, cleanup_s3_buckets, bind at 1. rewrite call_eq, Hclient.
  reflexivity.
Qed.

(** The pages of the log sweeper when no name on them holds the prefix. *)
Lemma for_page_nothing (environment_prefix : string) (pages : list (list string)) w' :
  (∀ page name, page ∈ pages → name ∈ page →
     ¬ ∃ before after, name = before +:+ environment_prefix +:+ after) →
  ∀ fuel token m,
    paginator_reads token pages (world m) w' →
    (length pages ≤ fuel)%nat →
    for_page fuel token (fun log_groups =>
      for_each (List.filter (fun lg => contains environment_prefix lg) log_groups)
        (fun log_group_name =>
          try_except
            (let* _ := call (delete_log_group log_group_name) in
             append (deleted "cloudwatch_log_group" log_group_name))
            (fun e => append (failed "cloudwatch_log_group" log_group_name e)))) m =
      Some (Ok tt, set_world w' m).
Proof.
  induction pages as [|page rest IH]; intros Hnone fuel token m Hreads Hfuel; [done|].
  destruct fuel as [|fuel]; [cbn in Hfuel; lia|].
  destruct Hreads as (next & w1 & Hpage & Hrest).
  cbn [for_page]. answer Hpage.
  fold (log_matches environment_prefix page).
  rewrite (log_matches_none environment_prefix page)
    by (intros name Hin; apply (Hnone page); [left | done]).
  unfold bind at 1. cbn [for_each ret].
  destruct rest as [|page' rest].
  - by destruct Hrest as [-> ->].
  - destruct Hrest as (t & -> & Hrest).
    rewrite (IH (λ p name Hp, Hnone p name (list_elem_of_further _ _ _ Hp))
               fuel (Some t) (set_world w1 m) Hrest) by (cbn in Hfuel |- *; lia).
    done.
Qed.

(** X17: With nothing that matches, the age check answers [True] and the
    sweep runs to its end: every listing is made, all the pages of log
    groups are read, no deletion is tried, and the handler answers 200
    [completed] with an empty list of resources. *)
Theorem handler_nothing_to_clean (fuel : nat) (environ : gmap string string)
    (environment_prefix : string) (auto_destroy_hours : Z) w (t : datetime) w1
    o1 listed o2 a1 tables a2 b1 buckets b2 c1 buses c2 d1 pages d2 :
  environ !! "ENVIRONMENT_PREFIX" = Some environment_prefix →
  environment_prefix ≠ "" →
  int (default "24" (environ !! "AUTO_DESTROY_HOURS")) = Ok auto_destroy_hours →
  utcnow w = (t, w1) →
  client "dynamodb" w1 = (Ok tt, o1) →
  list_tables o1 = (Ok listed, o2) →
  (∀ name, name ∈ listed → ¬ ∃ rest, name = environment_prefix +:+ rest) →
  client "dynamodb" o2 = (Ok tt, a1) →
  list_tables a1 = (Ok tables, a2) →
  (∀ name, name ∈ tables → ¬ ∃ rest, name = environment_prefix +:+ rest) →
  client "s3" a2 = (Ok tt, b1) →
  list_buckets b1 = (Ok buckets, b2) →
  (∀ name, name ∈ buckets → ¬ ∃ rest, name = environment_prefix +:+ rest) →
  client "events" b2 = (Ok tt, c1) →
  list_event_buses c1 = (Ok buses, c2) →
  (∀ name, name ∈ buses → ¬ ∃ rest, name = environment_prefix +:+ rest) →
  client "logs" c2 = (Ok tt, d1) →
  paginator_reads None pages d1 d2 →
  (∀ page name, page ∈ pages → name ∈ page →
     ¬ ∃ before after, name = before +:+ environment_prefix +:+ after) →
  (length pages ≤ fuel)%nat →
  should_cleanup_environment environment_prefix auto_destroy_hours
    {| world := w1; results := initial_results environment_prefix auto_destroy_hours t |} =
    Some (Ok true,
          {| world := o2;
             results := initial_results environment_prefix auto_destroy_hours t |}) ∧
  lambda_handler fuel environ w =
    Some (Ok {| statusCode := 200;
                body := ReportBody
                  {| EphemeralCleanup.environment_prefix := environment_prefix;
                     EphemeralCleanup.auto_destroy_hours := auto_destroy_hours;
                     cleanup_timestamp := t;
                     resources_cleaned := [];
                     action := Some "completed";
                     reason := None;
                     status := Some "success";
                     error := None |} |}, d2).
Proof.
  intros Hprefix Hne Hhours Hnow Ho1 Ho2 Ho
    Ha1 Ha2 Ha%swept_none Hb1 Hb2 Hb%swept_none Hc1 Hc2 Hc%swept_none Hd1 Hd2 Hd Hfuel.
  pose proof (should_cleanup_environment_none environment_prefix auto_destroy_hours
                {| world := w1;
                   results := initial_results environment_prefix auto_destroy_hours t |}
                o1 listed o2 Ho1 Ho2 Ho) as Hcheck.
  split; [exact Hcheck|].
  unfold lambda_handler. rewrite Hprefix, Hhours. cbn [default from_option id].
  destruct (String.eqb_spec environment_prefix "") as [|_]; [done|].
  rewrite Hnow. cbv beta iota zeta.
  unfold run_cleanup, try_except at 1, bind at 1. rewrite Hcheck. cbn [negb].
  unfold sweep_all, bind at 1.
  match goal with
  | |- context [cleanup_dynamodb_tables _ ?m] =>
      pose proof (sweeper_eq Table environment_prefix m a1 tables a2 Ha1 Ha2) as Hsweep
  end.
  cbn [sweeper] in Hsweep. cbv zeta in Hsweep. rewrite Ha in Hsweep.
  cbn [run_deletes zip_with fst snd] in Hsweep. rewrite add_outcomes_nil in Hsweep.
  rewrite Hsweep. clear Hsweep.
  unfold bind at 1.
  match goal with
  | |- context [cleanup_s3_buckets _ ?m] =>
      pose proof (sweeper_eq Bucket environment_prefix m b1 buckets b2 Hb1 Hb2) as Hsweep
  end.
  cbn [sweeper] in Hsweep. cbv zeta in Hsweep. rewrite Hb in Hsweep.
  cbn [run_deletes zip_with fst snd] in Hsweep. rewrite add_outcomes_nil in Hsweep.
  rewrite Hsweep. clear Hsweep.
  unfold bind at 1.
  match goal with
  | |- context [cleanup_eventbridge_buses _ ?m] =>
      pose proof (sweeper_eq Bus environment_prefix m c1 buses c2 Hc1 Hc2) as Hsweep
  end.
  cbn [sweeper] in Hsweep. cbv zeta in Hsweep. rewrite Hc in Hsweep.
  cbn [run_deletes zip_with fst snd] in Hsweep. rewrite add_outcomes_nil in Hsweep.
  rewrite Hsweep. clear Hsweep.
  unfold bind at 1, cleanup_cloudwatch_logs. answer Hd1.
  unfold try_except at 1. cbv zeta.
  match goal with
  | |- context [for_page fuel None _ ?m] =>
      rewrite (for_page_nothing environment_prefix pages d2 Hd fuel None m Hd2 Hfuel)
  end.
  reflexivity.
Qed.

(** X18: The local test run sets both values itself, so whatever the
    surrounding environment holds it never ends in the 400 of a missing
    prefix nor in the [ValueError] of a bad threshold: when it ends, it is
    with a report for [test-ephemeral-dev-feature] and a threshold of one
    hour. *)
Theorem main_is_configured (fuel : nat) (environ : gmap string string) w res w' :
  main fuel environ w = Some (res, w') →
  ∃ response report,
    res = Ok response ∧
    body response = ReportBody report ∧
    EphemeralCleanup.environment_prefix report = "test-ephemeral-dev-feature" ∧
    auto_destroy_hours report = 1 ∧
    (statusCode response = 200 ∨ statusCode response = 500).
Proof.
  unfold main, lambda_handler.
  rewrite lookup_insert_eq, lookup_insert_ne, lookup_insert_eq by done.
  cbn [default from_option id].
  change (int "1") with (Ok 1 : result Z).
  change (String.eqb "test-ephemeral-dev-feature" "") with false.
  cbv beta iota.
  destruct (utcnow w) as [t w1].
  destruct (run_cleanup fuel _ 1 _) as [[r m]|] eqn:Hcleanup; [|done].
  intros [= <- <-].
  apply run_cleanup_shapes in Hcleanup
    as (code & -> & [[-> Hres]|[(os & _ & -> & Hres)|(os & e & _ & -> & Hres)]]);
    eexists _, (results m); (split; [done|]); (split; [done|]);
    rewrite Hres; cbn; by auto.
Qed.

End CleanupFurther.

Section CleanupFurtherExamples.
Import Py EphemeralCleanup.

(** The bucket listing is broken: nothing is recorded, nothing raised. *)
Lemma sweeper_listing_failure_silent_witness :
  sweeper Bucket "dev-feat1-" (sample_mem (break ["list_buckets"] sample)) =
    Some (Ok tt,
          set_world
            (logged "list_buckets" (logged "client s3" (break ["list_buckets"] sample)))
            (sample_mem (break ["list_buckets"] sample))).
Proof.
  destruct (sweeper_listing_failure_silent (W := Fake) "dev-feat1-") as [Hlisting _].
  apply (Hlisting Bucket _ (logged "client s3" (break ["list_buckets"] sample))
           (ClientError "An error occurred when calling list_buckets"));
    vm_compute; reflexivity.
Defined.

Lemma log_sweeper_only_appends_witness :
  ∃ m' outcomes,
    cleanup_cloudwatch_logs 2 "dev-feat1-" (sample_mem sample) = Some (Ok tt, m') ∧
    results m' = add_outcomes outcomes (results (sample_mem sample)) ∧
    Forall (fun o => res_type o = "cloudwatch_log_group") outcomes.
Proof.
  eassert (cleanup_cloudwatch_logs 2 "dev-feat1-" (sample_mem sample) = Some (Ok tt, _))
    as Hrun by (vm_compute; reflexivity).
  destruct (log_sweeper_only_appends _ _ _ _ _ Hrun) as (outcomes & Hres & Hall & _).
  eexists _, outcomes. split; [exact Hrun|]. split; [exact Hres|].
  eapply Forall_impl; [exact Hall|]. by intros o [? _].
Defined.

(** The second page cannot be fetched: the group of the first page is in
    the report, the one of the second page is not. *)
Lemma log_listing_failure_keeps_entries_witness :
  ∃ m',
    cleanup_cloudwatch_logs 2 "dev-feat1-"
      (sample_mem (break ["describe_log_groups I"] sample)) = Some (Ok tt, m') ∧
    res_name <$> resources_cleaned (results m') = ["/aws/lambda/dev-feat1-api"].
Proof.
  set (w := break ["describe_log_groups I"] sample).
  assert (client "logs" (world (sample_mem w)) = (Ok tt, logged "client logs" w))
    as Hclient by (vm_compute; reflexivity).
  eassert (describe_log_groups None (logged "client logs" w) =
           (Ok (["/aws/lambda/dev-feat1-api"; "/aws/lambda/prod-api"], Some "I"), _))
    as Hfirst by (vm_compute; reflexivity).
  match type of Hfirst with
  | _ = (_, ?w2) =>
      eassert (describe_log_groups (Some "I")
                 (run_deletes delete_log_group
                    (log_matches "dev-feat1-"
                       ["/aws/lambda/dev-feat1-api"; "/aws/lambda/prod-api"]) w2).2 =
               (Raise _, _)) as Hsecond by (vm_compute; reflexivity)
  end.
  pose proof (log_listing_failure_keeps_entries 0 "dev-feat1-" (sample_mem w)
                _ _ _ _ _ _ Hclient Hfirst Hsecond) as Hrun.
  eexists. split; [exact Hrun|]. vm_compute. reflexivity.
Defined.

Lemma sweeper_names_nodup_witness :
  ∃ m' outcomes,
    sweeper Table "dev-feat1-" (sample_mem sample) = Some (Ok tt, m') ∧
    NoDup (res_name <$> outcomes).
Proof.
  assert (client (service Table) (world (sample_mem sample)) =
          (Ok tt, logged "client dynamodb" sample)) as Hclient
    by (vm_compute; reflexivity).
  assert (listing Table (logged "client dynamodb" sample) =
          (Ok ["prod-users"; "dev-feat1-users"; "dev-feat1-orders"],
           logged "list_tables" (logged "client dynamodb" sample))) as Hlist
    by (vm_compute; reflexivity).
  assert (NoDup ["prod-users"; "dev-feat1-users"; "dev-feat1-orders"]) as Hnodup
    by (apply (bool_decide_unpack _); vm_compute; exact I).
  destruct (sweeper_names_nodup Table "dev-feat1-" (sample_mem sample) _ _ _
              Hclient Hlist Hnodup) as (m' & outcomes & Hrun & _ & Hnames).
  exists m', outcomes. split; [exact Hrun | exact Hnames].
Defined.

(** The answer [False] on the sample: the table found is six hours old. *)
Lemma age_check_skips_only_young_witness :
  ∃ table_name (t creation_time : datetime),
    table_name = "dev-feat1-users" ∧
    t - creation_time = 6 * hour ∧
    t - creation_time < 24 * hour.
Proof.
  destruct (age_check_skips_only_young "dev-feat1-" 24 (sample_mem sample)) as [_ Hyoung].
  eassert (should_cleanup_environment "dev-feat1-" 24 (sample_mem sample) =
           Some (Ok false, _)) as Hrun by (vm_compute; reflexivity).
  destruct (Hyoung _ Hrun)
    as (w1 & tables & w2 & table_name & rest & creation_time & w3 & t & w4 &
        Hclient & Hlist & Hfirst & Hdescribe & Hnow & _ & Hlt).
  vm_compute in Hclient. injection Hclient as <-.
  vm_compute in Hlist. injection Hlist as <- <-.
  vm_compute in Hfirst. injection Hfirst as <- <-.
  vm_compute in Hdescribe. injection Hdescribe as <- <-.
  vm_compute in Hnow. injection Hnow as <- <-.
  exists "dev-feat1-users", (moment (30 * hour)), (moment (24 * hour)).
  split; [reflexivity|]. split; [vm_compute; reflexivity | exact Hlt].
Defined.

Lemma handler_response_shapes_witness :
  ∃ response w' hours,
    lambda_handler 5 sample_environ sample = Some (Ok response, w') ∧
    int (default "24" (sample_environ !! "AUTO_DESTROY_HOURS")) = Ok hours.
Proof.
  eassert (lambda_handler 5 sample_environ sample = Some (Ok _, _)) as Hrun
    by (vm_compute; reflexivity).
  destruct (handler_response_shapes 5 sample_environ sample _ _ Hrun)
    as (hours & Hhours & _).
  eexists _, _, hours. split; [exact Hrun | exact Hhours].
Defined.

(** Two days on, the whole sweep: six entries, in the order of the kinds. *)
Lemma handler_report_grouped_witness :
  ∃ response w' report,
    lambda_handler 5 sample_environ (at_time (48 * hour) sample) =
      Some (Ok response, w') ∧
    body response = ReportBody report ∧
    length (resources_cleaned report) = 6%nat ∧
    grouped (resources_cleaned report).
Proof.
  eassert (lambda_handler 5 sample_environ (at_time (48 * hour) sample) =
           Some (Ok {| statusCode := 200; body := ReportBody _ |}, _)) as Hrun
    by (vm_compute; reflexivity).
  eexists _, _, _. split; [exact Hrun|]. split; [reflexivity|].
  split; [vm_compute; reflexivity|].
  exact (handler_report_grouped 5 sample_environ _ _ _ _ Hrun eq_refl).
Defined.

(** The S3 client cannot be made: the two tables are in the report, the
    sweep stops there. *)
Lemma handler_failed_keeps_partial_report_witness :
  ∃ report w',
    lambda_handler 5 sample_environ (break ["client s3"] (at_time (48 * hour) sample)) =
      Some (Ok {| statusCode := 500; body := ReportBody report |}, w') ∧
    action report = Some "failed" ∧
    error report = Some "Cleanup failed: An error occurred when calling client s3" ∧
    res_name <$> resources_cleaned report = ["dev-feat1-users"; "dev-feat1-orders"].
Proof.
  set (w := break ["client s3"] (at_time (48 * hour) sample)).
  assert (sample_environ !! "ENVIRONMENT_PREFIX" = Some "dev-feat1-") as Hprefix
    by (vm_compute; reflexivity).
  assert ("dev-feat1-" ≠ "") as Hne by discriminate.
  assert (int (default "24" (sample_environ !! "AUTO_DESTROY_HOURS")) = Ok 24) as Hhours
    by (vm_compute; reflexivity).
  assert (utcnow w = (moment (48 * hour), w)) as Hnow by (vm_compute; reflexivity).
  eassert (should_cleanup_environment "dev-feat1-" 24
             {| world := w;
                results := initial_results "dev-feat1-" 24 (moment (48 * hour)) |} =
           Some (Ok true, _)) as Hcheck by (vm_compute; reflexivity).
  match type of Hcheck with
  | _ = Some (_, ?m1) =>
      eassert (cleanup_dynamodb_tables "dev-feat1-" m1 = Some (Ok tt, _)) as Htables
        by (vm_compute; reflexivity)
  end.
  match type of Htables with
  | _ = Some (_, ?m2) =>
      eassert (client "s3" (world m2) = (Raise _, _)) as Hclient
        by (vm_compute; reflexivity)
  end.
  pose proof (handler_failed_keeps_partial_report 5 sample_environ "dev-feat1-" 24
                w _ _ _ _ _ _ Hprefix Hne Hhours Hnow Hcheck Htables Hclient) as Hrun.
  eexists _, _. split; [exact Hrun|]. vm_compute. by repeat split.
Defined.

(** Nothing carries the prefix [qa-]: the tables are listed twice, once
    by the age check, and the two pages of log groups are both read. *)
Lemma handler_nothing_to_clean_witness :
  ∃ w',
    lambda_handler 2 {[ "ENVIRONMENT_PREFIX" := "qa-" ]} sample =
      Some (Ok {| statusCode := 200;
                  body := ReportBody
                    {| environment_prefix := "qa-";
                       auto_destroy_hours := 24;
                       cleanup_timestamp := 30 * hour;
                       resources_cleaned := [];
                       action := Some "completed";
                       reason := None;
                       status := Some "success";
                       error := None |} |}, w') ∧
    trace w' = ["client dynamodb"; "list_tables"; "client dynamodb"; "list_tables";
                "client s3"; "list_buckets"; "client events"; "list_event_buses";
                "client logs"; "describe_log_groups "; "describe_log_groups I"].
Proof.
  set (environ := {[ "ENVIRONMENT_PREFIX" := "qa-" ]} : gmap string string).
  set (w := sample).
  set (o1 := logged "client dynamodb" w).
  set (o2 := logged "list_tables" o1).
  set (a1 := logged "client dynamodb" o2).
  set (a2 := logged "list_tables" a1).
  set (b1 := logged "client s3" a2).
  set (b2 := logged "list_buckets" b1).
  set (c1 := logged "client events" b2).
  set (c2 := logged "list_event_buses" c1).
  set (d1 := logged "client logs" c2).
  set (d2 := logged "describe_log_groups I" (logged "describe_log_groups " d1)).
  assert (environ !! "ENVIRONMENT_PREFIX" = Some "qa-") as Hprefix
    by (vm_compute; reflexivity).
  assert ("qa-" ≠ "") as Hne by discriminate.
  assert (int (default "24" (environ !! "AUTO_DESTROY_HOURS")) = Ok 24) as Hhours
    by (vm_compute; reflexivity).
  assert (utcnow w = (moment (30 * hour), w)) as Hnow by (vm_compute; reflexivity).
  assert (client "dynamodb" w = (Ok tt, o1)) as Ho1 by (vm_compute; reflexivity).
  assert (list_tables o1 =
          (Ok ["prod-users"; "dev-feat1-users"; "dev-feat1-orders"], o2)) as Ho2
    by (vm_compute; reflexivity).
  assert (client "dynamodb" o2 = (Ok tt, a1)) as Ha1 by (vm_compute; reflexivity).
  assert (list_tables a1 =
          (Ok ["prod-users"; "dev-feat1-users"; "dev-feat1-orders"], a2)) as Ha2
    by (vm_compute; reflexivity).
  assert (client "s3" a2 = (Ok tt, b1)) as Hb1 by (vm_compute; reflexivity).
  assert (list_buckets b1 = (Ok ["dev-feat1-assets"; "prod-assets"], b2)) as Hb2
    by (vm_compute; reflexivity).
  assert (client "events" b2 = (Ok tt, c1)) as Hc1 by (vm_compute; reflexivity).
  assert (list_event_buses c1 = (Ok ["default"; "dev-feat1-bus"], c2)) as Hc2
    by (vm_compute; reflexivity).
  assert (client "logs" c2 = (Ok tt, d1)) as Hd1 by (vm_compute; reflexivity).
  assert (paginator_reads None
            [["/aws/lambda/dev-feat1-api"; "/aws/lambda/prod-api"]; ["dev-feat1-audit"]]
            d1 d2) as Hd2.
  { eexists _, _. split; [vm_compute; reflexivity|].
    eexists. split; [reflexivity|].
    eexists _, _. split; [vm_compute; reflexivity|]. split; reflexivity. }
  assert (∀ names name, Forall (fun n => startswith n "qa-" = false) names →
            name ∈ names → ¬ ∃ rest, name = "qa-" +:+ rest) as Hstart.
  { intros names name Hall Hin Hrest%startswith_spec.
    rewrite Forall_forall in Hall. specialize (Hall name Hin). congruence. }
  assert (∀ names name, Forall (fun n => contains "qa-" n = false) names →
            name ∈ names → ¬ ∃ before after, name = before +:+ "qa-" +:+ after)
    as Hholds.
  { intros names name Hall Hin Hrest%contains_spec.
    rewrite Forall_forall in Hall. specialize (Hall name Hin). congruence. }
  assert (∀ name : string,
            name ∈ ["prod-users"; "dev-feat1-users"; "dev-feat1-orders"] →
            ¬ ∃ rest, name = "qa-" +:+ rest) as Htables
    by (intros name; apply Hstart; repeat constructor).
  assert (∀ name : string, name ∈ ["dev-feat1-assets"; "prod-assets"] →
            ¬ ∃ rest, name = "qa-" +:+ rest) as Hbuckets
    by (intros name; apply Hstart; repeat constructor).
  assert (∀ name : string, name ∈ ["default"; "dev-feat1-bus"] →
            ¬ ∃ rest, name = "qa-" +:+ rest) as Hbuses
    by (intros name; apply Hstart; repeat constructor).
  assert (∀ (page : list string) (name : string),
            page ∈ [["/aws/lambda/dev-feat1-api"; "/aws/lambda/prod-api"];
                    ["dev-feat1-audit"]] →
            name ∈ page →
            ¬ ∃ before after, name = before +:+ "qa-" +:+ after) as Hpages.
  { intros page name Hpage. apply Hholds.
    apply elem_of_cons in Hpage as [->|Hpage%list_elem_of_singleton];
      [|subst page]; repeat constructor. }
  assert (length [["/aws/lambda/dev-feat1-api"; "/aws/lambda/prod-api"];
                  ["dev-feat1-audit"]] ≤ 2)%nat as Hfuel by (cbn; lia).
  destruct (handler_nothing_to_clean 2 environ "qa-" 24 w (moment (30 * hour)) w
              o1 _ o2 a1 _ a2 b1 _ b2 c1 _ c2 d1 _ d2
              Hprefix Hne Hhours Hnow Ho1 Ho2 Htables Ha1 Ha2 Htables
              Hb1 Hb2 Hbuckets Hc1 Hc2 Hbuses Hd1 Hd2 Hpages Hfuel) as [_ Hrun].
  exists d2. split; [exact Hrun|]. vm_compute. reflexivity.
Defined.

(** The local test run in the sample world, with settings of its own
    around it that would not do. *)
Lemma main_is_configured_witness :
  ∃ res w' response,
    main 5 {[ "AUTO_DESTROY_HOURS" := "soon" ]} sample = Some (res, w') ∧
    res = Ok response ∧
    (statusCode response = 200 ∨ statusCode response = 500).
Proof.
  eassert (main 5 {[ "AUTO_DESTROY_HOURS" := "soon" ]} sample = Some (_, _)) as Hrun
    by (vm_compute; reflexivity).
  destruct (main_is_configured 5 _ sample _ _ Hrun)
    as (response & report & Hres & _ & _ & _ & Hcode).
  eexists _, _, response. split; [exact Hrun|]. split; [exact Hres | exact Hcode].
Defined.

End CleanupFurtherExamples.
